(** * atomicwrites: the commit protocol of [atomicwrites/__init__.py]

    A shallow embedding of the module in a state-and-exception monad over a
    small model of the operating system: a table of directory entries
    (path to inode), the inodes' contents, the open descriptors, the
    user-space buffers of the open Python streams, and the log of every
    system call the module issues, each with its outcome.  The environment
    may make any call fail: a fault schedule, indexed by the position of the
    call in the log, names the error the call then reports.

    Conventions of the model.
    - Paths are the strings the program passes around; a directory entry is
      keyed by the string itself, so paths are taken to be written in
      absolute, normalised form (no symbolic links, no two spellings of one
      file).
    - Durability is not modelled: a sync call is an event of the log with no
      effect on the contents.
    - The caller's block is a list of commands on the yielded stream. *)

From stdpp Require Import gmap strings list.
From Stdlib Require Import ZArith Ascii.

Open Scope Z_scope.

(** ** Exceptions *)

Inductive exn :=
| ValueError (msg : string)
| TypeError (msg : string)
| AttributeError (msg : string)
| OSError (errno : Z)
| IOError (errno : Z)
| WindowsError (winerror : Z)
| CallerError (tag : string).

#[global] Instance exn_eq_dec : EqDecision exn.
Proof. solve_decision. Defined.

Inductive result (A : Type) :=
| Ok (a : A)
| Raise (e : exn).
Arguments Ok {A} a.
Arguments Raise {A} e.

Definition is_ok {A} (r : result A) : bool :=
  match r with Ok _ => true | Raise _ => false end.

(** [errno] values. *)
Definition ENOENT : Z := 2.
Definition EBADF : Z := 9.
Definition EACCES : Z := 13.
Definition EEXIST : Z := 17.
Definition EINVAL : Z := 22.

(** Windows error codes, and the errno Python derives from them. *)
Definition ERROR_FILE_NOT_FOUND : Z := 2.
Definition ERROR_ACCESS_DENIED : Z := 5.
Definition ERROR_INVALID_HANDLE : Z := 6.
Definition ERROR_SHARING_VIOLATION : Z := 32.
Definition ERROR_FILE_EXISTS : Z := 80.
Definition ERROR_ALREADY_EXISTS : Z := 183.

Definition winerror_to_errno (code : Z) : Z :=
  if (code =? ERROR_FILE_NOT_FOUND) then ENOENT
  else if (code =? ERROR_ACCESS_DENIED) || (code =? ERROR_SHARING_VIOLATION) then EACCES
  else if (code =? ERROR_INVALID_HANDLE) then EBADF
  else if (code =? ERROR_FILE_EXISTS) || (code =? ERROR_ALREADY_EXISTS) then EEXIST
  else EINVAL.

(** The [errno] attribute of an exception, when it has one. *)
Definition exn_errno (e : exn) : option Z :=
  match e with
  | OSError n | IOError n => Some n
  | WindowsError c => Some (winerror_to_errno c)
  | _ => None
  end.

(** ** The operating system *)

Inductive fdesc :=
| FdFile (ino : nat)
| FdDir (dir : string)
| FdTxn (pending : option (string * string)).

Inductive event :=
| Ev_open_excl (path : string)
| Ev_open_trunc (path : string)
| Ev_open_dir (dir : string)
| Ev_write (fd : nat) (data : string)
| Ev_fsync (fd : nat)
| Ev_fcntl (fd : nat) (cmd : Z)
| Ev_close (fd : nat)
| Ev_rename (src dst : string)
| Ev_link (src dst : string)
| Ev_unlink (path : string)
| Ev_CreateTransaction
| Ev_MoveFileTransacted (src dst : string) (flags : Z) (ta : Z)
| Ev_CommitTransaction (ta : Z)
| Ev_CloseHandle (ta : Z)
| Ev_MoveFileEx (src dst : string) (flags : Z)
| Ev_sleep (microseconds : Z)
| Ev_randint (lo hi : Z).

#[global] Instance fdesc_eq_dec : EqDecision fdesc.
Proof. solve_decision. Defined.

#[global] Instance event_eq_dec : EqDecision event.
Proof. solve_decision. Defined.

(** The state: directory entries, inode contents, open descriptors and
    handles, the buffers of the open Python streams, the thread's last
    Win32 error, and the log of the calls issued, each with whether it
    succeeded. *)
Record world := World {
  names : gmap string nat;
  inodes : gmap nat string;
  next_ino : nat;
  fds : gmap nat fdesc;
  next_fd : nat;
  bufs : gmap nat string;
  last_error : Z;
  trace : list (event * bool)
}.

(** The environment: which calls fail and with what error (by position in
    the log), and the random names and numbers it hands out. *)
Record env := Env {
  faults : nat -> option Z;
  tmp_names : nat -> string;
  rand_ints : nat -> Z
}.

Definition set_names (n : gmap string nat) (w : world) : world :=
  World n (inodes w) (next_ino w) (fds w) (next_fd w) (bufs w)
        (last_error w) (trace w).

Definition set_inodes (m : gmap nat string) (w : world) : world :=
  World (names w) m (next_ino w) (fds w) (next_fd w) (bufs w)
        (last_error w) (trace w).

Definition set_next_ino (n : nat) (w : world) : world :=
  World (names w) (inodes w) n (fds w) (next_fd w) (bufs w)
        (last_error w) (trace w).

Definition set_fds (m : gmap nat fdesc) (w : world) : world :=
  World (names w) (inodes w) (next_ino w) m (next_fd w) (bufs w)
        (last_error w) (trace w).

Definition set_next_fd (n : nat) (w : world) : world :=
  World (names w) (inodes w) (next_ino w) (fds w) n (bufs w)
        (last_error w) (trace w).

Definition set_bufs (m : gmap nat string) (w : world) : world :=
  World (names w) (inodes w) (next_ino w) (fds w) (next_fd w) m
        (last_error w) (trace w).

Definition set_last_error (c : Z) (w : world) : world :=
  World (names w) (inodes w) (next_ino w) (fds w) (next_fd w) (bufs w)
        c (trace w).

Definition log (ev : event) (ok : bool) (w : world) : world :=
  World (names w) (inodes w) (next_ino w) (fds w) (next_fd w) (bufs w)
        (last_error w) (trace w ++ [(ev, ok)]).

(** The number of calls issued so far: the index of the next one. *)
Definition clock (w : world) : nat := length (trace w).

(** What a path reads as: the contents of the inode its entry names. *)
Definition read_path (w : world) (p : string) : option string :=
  match names w !! p with
  | Some i => inodes w !! i
  | None => None
  end.

(** ** The monad: an environment, and a state that survives exceptions *)

Definition M (A : Type) : Type := env -> world -> result A * world.

Definition ret {A} (a : A) : M A := fun _ w => (Ok a, w).

Definition raise {A} (e : exn) : M A := fun _ w => (Raise e, w).

Definition bind {A B} (c : M A) (k : A -> M B) : M B := fun en w =>
  match c en w with
  | (Ok a, w') => k a en w'
  | (Raise e, w') => (Raise e, w')
  end.

Notation "'do' x <- c1 ; c2" := (bind c1 (fun x => c2))
  (at level 10, x name, c1 at level 100, c2 at level 200).
Notation "c1 ;; c2" := (bind c1 (fun _ => c2))
  (at level 100, c2 at level 200, right associativity).

(** [try: c finally: h]: [h] runs on both exits; an exception of [h]
    replaces the outcome of [c]. *)
Definition try_finally {A} (c : M A) (h : M unit) : M A := fun en w =>
  let '(r, w1) := c en w in
  match h en w1 with
  | (Ok _, w2) => (r, w2)
  | (Raise e, w2) => (Raise e, w2)
  end.

(** [try: c except Exception: pass]. *)
Definition try_pass (c : M unit) : M unit := fun en w =>
  match c en w with
  | (Ok _, w') => (Ok tt, w')
  | (Raise _, w') => (Ok tt, w')
  end.

(** A call into the operating system: failed by the fault schedule or
    carried out by [sem], and logged with its outcome. *)
Definition os_call {A} (mk : Z -> exn) (ev : event)
    (sem : world -> result A * world) : M A := fun en w =>
  match faults en (clock w) with
  | Some e => (Raise (mk e), log ev false w)
  | None => let '(r, w') := sem w in (r, log ev (is_ok r) w')
  end.

(** A Win32 call: it returns a BOOL and leaves its error code in
    [last_error]. *)
Definition win_call (ev : event) (sem : world -> Z * world) : M Z := fun en w =>
  match faults en (clock w) with
  | Some code => (Ok 0, log ev false (set_last_error code w))
  | None => let '(rv, w') := sem w in (Ok rv, log ev (negb (rv =? 0)) w')
  end.

(** ** System calls *)

Definition sem_link (src dst : string) (w : world) : result unit * world :=
  match names w !! src with
  | None => (Raise (OSError ENOENT), w)
  | Some i =>
      match names w !! dst with
      | Some _ => (Raise (OSError EEXIST), w)
      | None => (Ok tt, set_names (<[dst := i]> (names w)) w)
      end
  end.

Definition os_link (src dst : string) : M unit :=
  os_call OSError (Ev_link src dst) (sem_link src dst).

Definition sem_unlink (p : string) (w : world) : result unit * world :=
  match names w !! p with
  | None => (Raise (OSError ENOENT), w)
  | Some _ => (Ok tt, set_names (delete p (names w)) w)
  end.

Definition os_unlink (p : string) : M unit :=
  os_call OSError (Ev_unlink p) (sem_unlink p).

(** rename(2): when both names are entries of one file nothing happens;
    otherwise the destination entry is replaced and the source entry goes. *)
Definition sem_rename (src dst : string) (w : world) : result unit * world :=
  match names w !! src with
  | None => (Raise (OSError ENOENT), w)
  | Some i =>
      if bool_decide (names w !! dst = Some i) then (Ok tt, w)
      else (Ok tt, set_names (<[dst := i]> (delete src (names w))) w)
  end.

Definition os_rename (src dst : string) : M unit :=
  os_call OSError (Ev_rename src dst) (sem_rename src dst).

Definition alloc_fd (d : fdesc) (w : world) : nat * world :=
  (next_fd w, set_next_fd (S (next_fd w)) (set_fds (<[next_fd w := d]> (fds w)) w)).

(** [os.open(directory, 0)] *)
Definition sem_open_dir (d : string) (w : world) : result nat * world :=
  let '(fd, w') := alloc_fd (FdDir d) w in (Ok fd, w').

Definition os_open_dir (d : string) : M nat :=
  os_call OSError (Ev_open_dir d) (sem_open_dir d).

Definition create_inode (p : string) (w : world) : nat * world :=
  (next_ino w,
   set_next_ino (S (next_ino w))
     (set_inodes (<[next_ino w := ""]> (inodes w))
        (set_names (<[p := next_ino w]> (names w)) w))).

(** [os.open(file, O_RDWR | O_CREAT | O_EXCL, 0600)] *)
Definition sem_open_excl (p : string) (w : world) : result nat * world :=
  match names w !! p with
  | Some _ => (Raise (OSError EEXIST), w)
  | None =>
      let '(i, w1) := create_inode p w in
      let '(fd, w2) := alloc_fd (FdFile i) w1 in
      (Ok fd, w2)
  end.

Definition os_open_excl (p : string) : M nat :=
  os_call OSError (Ev_open_excl p) (sem_open_excl p).

(** The open(2) behind [io.open(name, 'w...')]: create or truncate. *)
Definition sem_open_trunc (p : string) (w : world) : result nat * world :=
  match names w !! p with
  | Some i =>
      let '(fd, w1) := alloc_fd (FdFile i) (set_inodes (<[i := ""]> (inodes w)) w) in
      (Ok fd, w1)
  | None =>
      let '(i, w1) := create_inode p w in
      let '(fd, w2) := alloc_fd (FdFile i) w1 in
      (Ok fd, w2)
  end.

Definition os_open_trunc (p : string) : M nat :=
  os_call IOError (Ev_open_trunc p) (sem_open_trunc p).

Definition sem_write (fd : nat) (data : string) (w : world) : result unit * world :=
  match fds w !! fd with
  | Some (FdFile i) =>
      (Ok tt, set_inodes (alter (fun c => c +:+ data) i (inodes w)) w)
  | _ => (Raise (IOError EBADF), w)
  end.

Definition os_write (fd : nat) (data : string) : M unit :=
  os_call IOError (Ev_write fd data) (sem_write fd data).

Definition sem_fd_check (mk : Z -> exn) (fd : nat) (w : world) : result unit * world :=
  match fds w !! fd with
  | Some _ => (Ok tt, w)
  | None => (Raise (mk EBADF), w)
  end.

Definition os_fsync (fd : nat) : M unit :=
  os_call OSError (Ev_fsync fd) (sem_fd_check OSError fd).

(** [fcntl.fcntl(fd, cmd)] for a command without effect on the contents. *)
Definition fcntl_fcntl (fd : nat) (cmd : Z) : M unit :=
  os_call IOError (Ev_fcntl fd cmd) (sem_fd_check IOError fd).

Definition sem_close (fd : nat) (w : world) : result unit * world :=
  match fds w !! fd with
  | Some _ => (Ok tt, set_fds (delete fd (fds w)) w)
  | None => (Raise (OSError EBADF), w)
  end.

Definition os_close (fd : nat) : M unit :=
  os_call OSError (Ev_close fd) (sem_close fd).

(** [time.sleep]: an event of the log; it cannot fail. *)
Definition time_sleep (microseconds : Z) : M unit := fun _ w =>
  (Ok tt, log (Ev_sleep microseconds) true w).

(** [random.randint(lo, hi)]: the environment's number, brought into range. *)
Definition random_randint (lo hi : Z) : M Z := fun en w =>
  (Ok (lo + rand_ints en (clock w) mod (hi - lo + 1)), log (Ev_randint lo hi) true w).

(** ** Win32 calls *)

Definition _MOVEFILE_REPLACE_EXISTING : Z := 1.
Definition _MOVEFILE_WRITE_THROUGH : Z := 8.
Definition _windows_default_flags : Z := _MOVEFILE_WRITE_THROUGH.

(** Whether a move of [src] onto [dst] is possible, and its error if not. *)
Definition move_check (src dst : string) (flags : Z) (w : world) : option Z :=
  match names w !! src with
  | None => Some ERROR_FILE_NOT_FOUND
  | Some _ =>
      match names w !! dst with
      | Some _ =>
          if Z.land flags _MOVEFILE_REPLACE_EXISTING =? 0
          then Some ERROR_ALREADY_EXISTS else None
      | None => None
      end
  end.

Definition apply_move (src dst : string) (w : world) : world :=
  match names w !! src with
  | Some i => set_names (<[dst := i]> (delete src (names w))) w
  | None => w
  end.

Definition sem_MoveFileEx (src dst : string) (flags : Z) (w : world) : Z * world :=
  match move_check src dst flags w with
  | Some code => (0, set_last_error code w)
  | None => (1, apply_move src dst w)
  end.

Definition MoveFileExW (src dst : string) (flags : Z) : M Z :=
  win_call (Ev_MoveFileEx src dst flags) (sem_MoveFileEx src dst flags).

(** [CreateTransaction]: a handle, or -1 (INVALID_HANDLE_VALUE). *)
Definition _CreateTransaction : M Z := fun en w =>
  match faults en (clock w) with
  | Some code => (Ok (-1), log Ev_CreateTransaction false (set_last_error code w))
  | None =>
      let '(h, w') := alloc_fd (FdTxn None) w in
      (Ok (Z.of_nat h), log Ev_CreateTransaction true w')
  end.

Definition lookup_txn (ta : Z) (w : world) : option (option (string * string)) :=
  if ta <? 0 then None
  else match fds w !! Z.to_nat ta with
       | Some (FdTxn p) => Some p
       | _ => None
       end.

(** A transacted move is recorded in its transaction and takes effect when
    the transaction commits. *)
Definition sem_MoveFileTransacted (src dst : string) (flags ta : Z) (w : world)
    : Z * world :=
  match lookup_txn ta w with
  | None => (0, set_last_error ERROR_INVALID_HANDLE w)
  | Some _ =>
      match move_check src dst flags w with
      | Some code => (0, set_last_error code w)
      | None => (1, set_fds (<[Z.to_nat ta := FdTxn (Some (src, dst))]> (fds w)) w)
      end
  end.

Definition _MoveFileTransacted (src dst : string) (flags ta : Z) : M Z :=
  win_call (Ev_MoveFileTransacted src dst flags ta)
           (sem_MoveFileTransacted src dst flags ta).

Definition sem_CommitTransaction (ta : Z) (w : world) : Z * world :=
  match lookup_txn ta w with
  | None => (0, set_last_error ERROR_INVALID_HANDLE w)
  | Some None => (1, w)
  | Some (Some (src, dst)) =>
      (1, apply_move src dst (set_fds (<[Z.to_nat ta := FdTxn None]> (fds w)) w))
  end.

Definition _CommitTransaction (ta : Z) : M Z :=
  win_call (Ev_CommitTransaction ta) (sem_CommitTransaction ta).

Definition sem_CloseHandle (ta : Z) (w : world) : Z * world :=
  match lookup_txn ta w with
  | None => (0, set_last_error ERROR_INVALID_HANDLE w)
  | Some _ => (1, set_fds (delete (Z.to_nat ta) (fds w)) w)
  end.

Definition _CloseHandle (ta : Z) : M Z :=
  win_call (Ev_CloseHandle ta) (sem_CloseHandle ta).

(** [ctypes.WinError()]: the exception for the thread's last error code. *)
Definition WinError : M exn := fun _ w => (Ok (WindowsError (last_error w)), w).

(** ** [os.path] (the POSIX flavour) *)

Definition is_slash (c : ascii) : bool := bool_decide (c = "/"%char).

Fixpoint drop_slashes (l : list ascii) : list ascii :=
  match l with
  | c :: l' => if is_slash c then drop_slashes l' else l
  | [] => []
  end.

Fixpoint drop_to_slash (l : list ascii) : list ascii :=
  match l with
  | c :: l' => if is_slash c then l else drop_to_slash l'
  | [] => []
  end.

(** [head = p[:p.rfind('/') + 1]], stripped of trailing slashes unless it
    consists of slashes only. *)
Definition dirname (p : string) : string :=
  let rhead := drop_to_slash (rev (String.list_ascii_of_string p)) in
  if forallb is_slash rhead then String.string_of_list_ascii (rev rhead)
  else String.string_of_list_ascii (rev (drop_slashes rhead)).

(** [p.split('/')] *)
Fixpoint split_slash (cur : list ascii) (l : list ascii) : list string :=
  match l with
  | [] => [String.string_of_list_ascii (rev cur)]
  | c :: l' =>
      if is_slash c then String.string_of_list_ascii (rev cur) :: split_slash [] l'
      else split_slash (c :: cur) l'
  end.

Fixpoint join_slash (comps : list string) : string :=
  match comps with
  | [] => ""
  | [c] => c
  | c :: rest => c +:+ "/" +:+ join_slash rest
  end.

(** The loop of [normpath] over the components; [acc] is [new_comps],
    most recent first. *)
Fixpoint norm_comps (initial_slashes : nat) (acc : list string)
    (comps : list string) : list string :=
  match comps with
  | [] => rev acc
  | comp :: rest =>
      if bool_decide (comp = "") || bool_decide (comp = ".")
      then norm_comps initial_slashes acc rest
      else if negb (bool_decide (comp = ".."))
              || (bool_decide (initial_slashes = 0%nat) && bool_decide (acc = []))
              || (match acc with c :: _ => bool_decide (c = "..") | [] => false end)
      then norm_comps initial_slashes (comp :: acc) rest
      else norm_comps initial_slashes (tail acc) rest
  end.

Definition starts_with (pre s : string) : bool := String.prefix pre s.

Definition normpath (path : string) : string :=
  if bool_decide (path = "") then "."
  else
    let initial_slashes : nat :=
      if starts_with "/" path then
        (if starts_with "//" path && negb (starts_with "///" path) then 2 else 1)%nat
      else 0%nat in
    let comps := norm_comps initial_slashes [] (split_slash [] (String.list_ascii_of_string path)) in
    let p := join_slash comps in
    let p := match initial_slashes with
             | O => p
             | S O => "/" +:+ p
             | _ => "//" +:+ p
             end in
    if bool_decide (p = "") then "." else p.

Definition ends_with_slash (a : string) : bool :=
  match rev (String.list_ascii_of_string a) with
  | c :: _ => is_slash c
  | [] => false
  end.

(** [os.path.join(a, b)] *)
Definition path_join (a b : string) : string :=
  if starts_with "/" b then b
  else if bool_decide (a = "") || ends_with_slash a then a +:+ b
  else a +:+ "/" +:+ b.

(** ** Python streams *)

(** A file object: its [name] and its descriptor.  The stream is open as
    long as [bufs] holds a buffer for the descriptor. *)
Record pyfile := PyFile {
  f_name : string;
  f_fileno : nat
}.

Definition closed_msg : string := "I/O operation on closed file".

Definition f_write (f : pyfile) (s : string) : M unit := fun _ w =>
  match bufs w !! f_fileno f with
  | None => (Raise (ValueError closed_msg), w)
  | Some b => (Ok tt, set_bufs (<[f_fileno f := b +:+ s]> (bufs w)) w)
  end.

(** [f.flush()]: the pending bytes go to the descriptor; on a failed write
    they stay in the buffer. *)
Definition f_flush (f : pyfile) : M unit := fun en w =>
  match bufs w !! f_fileno f with
  | None => (Raise (ValueError closed_msg), w)
  | Some b =>
      if bool_decide (b = "") then (Ok tt, w)
      else
        match os_write (f_fileno f) b en w with
        | (Ok _, w') => (Ok tt, set_bufs (<[f_fileno f := ""]> (bufs w')) w')
        | (Raise e, w') => (Raise e, w')
        end
  end.

Definition mark_closed (f : pyfile) : M unit := fun _ w =>
  (Ok tt, set_bufs (delete (f_fileno f) (bufs w)) w).

(** [f.close()]: nothing on a closed stream; otherwise flush, and release
    the descriptor whether or not the flush succeeded. *)
Definition f_close (f : pyfile) : M unit := fun en w =>
  match bufs w !! f_fileno f with
  | None => (Ok tt, w)
  | Some _ =>
      try_finally (f_flush f) (mark_closed f ;; os_close (f_fileno f)) en w
  end.

(** [with f: block]: [f.__exit__] closes the stream on both exits. *)
Definition with_file {A} (f : pyfile) (block : M A) : M A :=
  try_finally block (f_close f).

(** The characters of a mode, and ['c' in mode]. *)
Definition mode_chars (mode : string) : list ascii := String.list_ascii_of_string mode.

Definition has_char (c : ascii) (mode : string) : bool :=
  bool_decide (c ∈ mode_chars mode).

(** The argument check of [io.open]: every character of the mode is one of
    "arwb+tU" and none occurs twice; 'U' goes with reading only and counts
    as reading; 't' and 'b' exclude each other; exactly one of reading,
    writing and appending is asked for. *)
Definition io_mode_valid (mode : string) : bool :=
  let reading := has_char "r" mode || has_char "U" mode in
  let writing := has_char "w" mode in
  let appending := has_char "a" mode in
  forallb (fun c => bool_decide (c ∈ mode_chars "arwb+tU")) (mode_chars mode)
  && bool_decide (NoDup (mode_chars mode))
  && negb (has_char "U" mode && (writing || appending))
  && negb (has_char "t" mode && has_char "b" mode)
  && bool_decide ((Nat.b2n reading + Nat.b2n writing + Nat.b2n appending)%nat
                  = 1%nat).

Definition io_open_keywords : list string :=
  ["file"; "mode"; "buffering"; "encoding"; "errors"; "newline"; "closefd"].

(** [io.open] on the keyword arguments [get_fileobject] passes:
    the arguments are checked first, then the file is created or truncated. *)
Definition io_open (kwargs : gmap string string) : M pyfile :=
  if negb (bool_decide (dom kwargs ⊆ list_to_set io_open_keywords))
  then raise (TypeError "unexpected keyword argument")
  else
    match kwargs !! "file", kwargs !! "mode" with
    | Some name, Some mode =>
        if negb (io_mode_valid mode) then raise (ValueError "invalid mode")
        else
          do fd <- os_open_trunc name;
          fun _ w => (Ok (PyFile name fd), set_bufs (<[fd := ""]> (bufs w)) w)
    | _, _ => raise (TypeError "missing argument")
    end.

(** [tempfile.mkstemp(suffix, prefix, dir)]: try the environment's random
    names until one is free; the file is created exclusively.  The name is
    returned as built from [dir]: by the convention on paths
    [os.path.abspath] leaves it as it is. *)
Definition TMP_MAX : nat := (100 * 100)%nat.

Fixpoint mkstemp_inner (tries : nat) (dir pre suf : string) : M (nat * string) :=
  match tries with
  | O => raise (IOError EEXIST)
  | S tries' => fun en w =>
      let file := path_join dir (pre +:+ tmp_names en (clock w) +:+ suf) in
      match os_open_excl file en w with
      | (Ok fd, w') => (Ok (fd, file), w')
      | (Raise e, w') =>
          if bool_decide (e = OSError EEXIST)
          then mkstemp_inner tries' dir pre suf en w'
          else (Raise e, w')
      end
  end.

Definition mkstemp (suffix prefix dir : string) : M (nat * string) :=
  mkstemp_inner TMP_MAX dir prefix suffix.

(** ** The module [atomicwrites] *)

(** What the module tests when it is loaded. *)
Record platform := Platform {
  sys_platform : string;
  PY2 : bool;
  (** the value of [fcntl.F_FULLFSYNC], when [fcntl] was imported and has
      the attribute *)
  fcntl_F_FULLFSYNC : option Z;
  (** whether [ctypes] finds the transaction entry points of ktmw32 and
      kernel32 *)
  ktm_entry_points : bool
}.

Definition is_win32 (plat : platform) : bool :=
  bool_decide (sys_platform plat = "win32").

Definition transactional_ntfs_supported (plat : platform) : bool :=
  if is_win32 plat then ktm_entry_points plat else true.

(** The paths of the model are text already. *)
Definition _path_to_unicode (x : string) : string := x.

Definition DEFAULT_MODE (plat : platform) : string :=
  if PY2 plat then "wb" else "w".

Definition _proper_fsync (plat : platform) (fd : nat) : M unit :=
  if negb (is_win32 plat) then
    match fcntl_F_FULLFSYNC plat with
    | Some cmd => fcntl_fcntl fd cmd
    | None => os_fsync fd
    end
  else os_fsync fd.

Module Posix.

Definition _sync_directory (plat : platform) (directory : string) : M unit :=
  do fd <- os_open_dir directory;
  try_finally (_proper_fsync plat fd) (os_close fd).

Definition _replace_atomic (plat : platform) (src dst : string) : M unit :=
  os_rename src dst ;;
  _sync_directory plat (normpath (dirname dst)).

Definition _move_atomic (plat : platform) (src dst : string) : M unit :=
  os_link src dst ;;
  os_unlink src ;;
  let src_dir := normpath (dirname src) in
  let dst_dir := normpath (dirname dst) in
  _sync_directory plat dst_dir ;;
  if negb (bool_decide (src_dir = dst_dir)) then _sync_directory plat src_dir
  else ret tt.

End Posix.

Module Win32.

(** Python truth of a BOOL or of [False]/[True] (0 and 1). *)
Definition truthy (rv : Z) : bool := negb (rv =? 0).

Definition sys_maxint : Z := 2147483647.

(** [os.rename] of the nt flavour: it refuses an existing destination. *)
Definition sem_rename_nt (src dst : string) (w : world) : result unit * world :=
  match move_check src dst 0 w with
  | Some code => (Raise (WindowsError code), set_last_error code w)
  | None => (Ok tt, apply_move src dst w)
  end.

Definition os_rename (src dst : string) : M unit :=
  os_call WindowsError (Ev_rename src dst) (sem_rename_nt src dst).

Definition hex_digit (d : Z) : ascii :=
  nth (Z.to_nat d) (String.list_ascii_of_string "0123456789abcdef") "0"%char.

Fixpoint hex_digits (width : nat) (z : Z) (acc : list ascii) : list ascii :=
  match width with
  | O => acc
  | S width' => hex_digits width' (z / 16) (hex_digit (z mod 16) :: acc)
  end.

(** ["%08x" % z] for [0 <= z <= sys_maxint] (eight digits always suffice). *)
Definition format_08x (z : Z) : string :=
  String.string_of_list_ascii (hex_digits 8 z []).

Definition _handle_errors (rv : Z) : M bool :=
  if negb (truthy rv) then (do e <- WinError; raise e)
  else ret true.

(** The [while not rv and retry < 100] loop of [_rename_atomic]; [fuel]
    bounds the iterations, and 100 is never exhausted before [retry]
    reaches 100. *)
Fixpoint _rename_atomic_loop (fuel : nat) (src dst : string) (ta retry rv : Z)
    : M Z :=
  match fuel with
  | O => ret rv
  | S fuel' =>
      if negb (truthy rv) && (retry <? 100) then
        do rv <- _MoveFileTransacted (_path_to_unicode src) (_path_to_unicode dst)
                   (Z.lor _MOVEFILE_REPLACE_EXISTING _MOVEFILE_WRITE_THROUGH) ta;
        if truthy rv then _CommitTransaction ta
        else
          time_sleep 1000 ;;
          _rename_atomic_loop fuel' src dst ta (retry + 1) rv
      else ret rv
  end.

Definition _rename_atomic (plat : platform) (src dst : string) : M Z :=
  if negb (transactional_ntfs_supported plat) then ret 0
  else
    do ta <- _CreateTransaction;
    if ta =? -1 then ret 0
    else
      try_finally (_rename_atomic_loop 100 src dst ta 0 0)
                  (_CloseHandle ta ;; ret tt).

(** The [while not rv and retry < 100] loop of [_rename]. *)
Fixpoint _rename_loop (fuel : nat) (src dst : string) (retry rv : Z) : M Z :=
  match fuel with
  | O => ret rv
  | S fuel' =>
      if negb (truthy rv) && (retry <? 100) then
        do rv <- MoveFileExW (_path_to_unicode src) (_path_to_unicode dst)
                   (Z.lor _windows_default_flags _MOVEFILE_REPLACE_EXISTING);
        if negb (truthy rv) then
          time_sleep 1000 ;;
          _rename_loop fuel' src dst (retry + 1) rv
        else _rename_loop fuel' src dst retry rv
      else ret rv
  end.

Definition _rename (plat : platform) (src dst : string) : M Z :=
  do r <- _rename_atomic plat src dst;
  if truthy r then ret 1
  else _rename_loop 100 src dst 0 0.

(** [try: c except OSError, e: h e] ([WindowsError] is an [OSError]). *)
Definition except_OSError {A} (c : M A) (h : exn -> M A) : M A := fun en w =>
  match c en w with
  | (Raise (OSError n), w') => h (OSError n) en w'
  | (Raise (WindowsError n), w') => h (WindowsError n) en w'
  | other => other
  end.

Definition _replace_atomic (plat : platform) (src dst : string) : M unit :=
  do rv <- _rename plat src dst;
  do handled <- _handle_errors rv;
  if handled then ret tt
  else
    except_OSError (os_rename src dst) (fun e =>
      if negb (bool_decide (exn_errno e = Some EEXIST)) then raise e
      else
        do r <- random_randint 0 sys_maxint;
        let old := dst +:+ "-" +:+ format_08x r in
        os_rename dst old ;;
        os_rename src dst ;;
        try_pass (os_unlink old)).

Definition _move_atomic (plat : platform) (src dst : string) : M unit :=
  do rv <- MoveFileExW (_path_to_unicode src) (_path_to_unicode dst)
             _windows_default_flags;
  _handle_errors rv ;;
  ret tt.

End Win32.

Definition _replace_atomic (plat : platform) : string -> string -> M unit :=
  if negb (is_win32 plat) then Posix._replace_atomic plat
  else Win32._replace_atomic plat.

Definition _move_atomic (plat : platform) : string -> string -> M unit :=
  if negb (is_win32 plat) then Posix._move_atomic plat
  else Win32._move_atomic plat.

Definition replace_atomic (plat : platform) (src dst : string) : M unit :=
  _replace_atomic plat src dst.

Definition move_atomic (plat : platform) (src dst : string) : M unit :=
  _move_atomic plat src dst.

(** ** [class AtomicWriter] *)

Record AtomicWriter := Build_AtomicWriter {
  _path : string;
  _mode : string;
  _overwrite : bool;
  _open_kwargs : gmap string string
}.

Definition msg_append : string :=
  "Appending to an existing file is not supported, because that would involve an expensive `copy`-operation to a temporary file. Open the file in normal `w`-mode and copy explicitly if that's what you're after.".

Definition msg_exclusive : string := "Use the `overwrite`-parameter instead.".

Definition msg_not_writable : string := "AtomicWriters can only be written to.".

(** [AtomicWriter.__init__(path, mode=DEFAULT_MODE, overwrite=False,
    **open_kwargs)]; an argument left out is [None] here.  The constructor
    only inspects its arguments: it has no access to the world. *)
Definition __init__ (plat : platform) (path : string) (mode : option string)
    (overwrite : option bool) (open_kwargs : gmap string string)
    : result AtomicWriter :=
  let mode := default (DEFAULT_MODE plat) mode in
  let overwrite := default false overwrite in
  if has_char "a" mode then Raise (ValueError msg_append)
  else if has_char "x" mode then Raise (ValueError msg_exclusive)
  else if negb (has_char "w" mode) then Raise (ValueError msg_not_writable)
  else Ok (Build_AtomicWriter path mode overwrite open_kwargs).

Definition tempfile_template : string := "tmp".

(** [get_fileobject(suffix=".atm_tmp", prefix=tempfile.template, dir=None,
    **kwargs)], called with the keyword dictionary [kw]. *)
Definition get_fileobject (self : AtomicWriter) (kw : gmap string string)
    : M pyfile :=
  let suffix := default ".atm_tmp" (kw !! "suffix") in
  let prefix := default tempfile_template (kw !! "prefix") in
  let kwargs := delete "suffix" (delete "prefix" (delete "dir" kw)) in
  let dir := match kw !! "dir" with
             | Some d => d
             | None => normpath (dirname (_path self))
             end in
  do created <- mkstemp suffix prefix dir;
  let '(descriptor, name) := created in
  os_close descriptor ;;
  let kwargs := <["mode" := _mode self]> kwargs in
  let kwargs := <["file" := name]> kwargs in
  io_open kwargs.

(** [f.fileno()] *)
Definition fileno (f : pyfile) : M nat := fun _ w =>
  match bufs w !! f_fileno f with
  | None => (Raise (ValueError closed_msg), w)
  | Some _ => (Ok (f_fileno f), w)
  end.

Definition sync (plat : platform) (self : AtomicWriter) (f : pyfile) : M unit :=
  f_flush f ;;
  do fd <- fileno f;
  _proper_fsync plat fd.

Definition commit (plat : platform) (self : AtomicWriter) (f : pyfile) : M unit :=
  if _overwrite self then replace_atomic plat (f_name f) (_path self)
  else move_atomic plat (f_name f) (_path self).

(** [rollback(f)]: [os.unlink(f.name)]; [f] is [None] when no file object
    was obtained. *)
Definition rollback (self : AtomicWriter) (f : option pyfile) : M unit :=
  match f with
  | None => raise (AttributeError "'NoneType' object has no attribute 'name'")
  | Some f => os_unlink (f_name f)
  end.

(** The caller's block: commands on the yielded stream. *)
Inductive cmd :=
| Cwrite (s : string)
| Cflush
| Cclose
| Craise (e : exn).

Fixpoint run_block (f : pyfile) (block : list cmd) : M unit :=
  match block with
  | [] => ret tt
  | Cwrite s :: rest => f_write f s ;; run_block f rest
  | Cflush :: rest => f_flush f ;; run_block f rest
  | Cclose :: rest => f_close f ;; run_block f rest
  | Craise e :: _ => raise e
  end.

(** The bytes a block hands to the stream. *)
Fixpoint written (block : list cmd) : string :=
  match block with
  | [] => ""
  | Cwrite s :: rest => s +:+ written rest
  | Craise _ :: _ => ""
  | _ :: rest => written rest
  end.

(** [_open], a generator-based context manager, run around the caller's
    block: [yield f] is where [block] runs, and an exception of the block is
    thrown in at that point.  The [try] part returns the value of the local
    [f] with its outcome; [success] is true exactly on its normal exit. *)
Definition _open (plat : platform) (self : AtomicWriter)
    (get_fileobject : gmap string string -> M pyfile)
    (block : pyfile -> M unit) : M unit := fun en w =>
  let '(f, (r, w1)) :=
    match get_fileobject (_open_kwargs self) en w with
    | (Raise e, w') => (None, (Raise e, w'))
    | (Ok f, w') =>
        (Some f,
         with_file f (block f ;;
                      sync plat self f ;;
                      f_close f ;;
                      commit plat self f) en w')
    end in
  let success := is_ok r in
  if negb success then
    let '(_, w2) := try_pass (rollback self f) en w1 in (r, w2)
  else (r, w1).

Definition open (plat : platform) (self : AtomicWriter)
    (block : pyfile -> M unit) : M unit :=
  _open plat self (get_fileobject self) block.

(** [with atomic_write(path, mode=.., overwrite=.., **open_kwargs) as f:
    block], with [writer_cls] left at [AtomicWriter]. *)
Definition atomic_write (plat : platform) (path : string) (mode : option string)
    (overwrite : option bool) (open_kwargs : gmap string string)
    (block : list cmd) : M unit :=
  match __init__ plat path mode overwrite open_kwargs with
  | Raise e => raise e
  | Ok writer => open plat writer (fun f => run_block f block)
  end.

(** ** Sample environments and worlds *)

Definition no_faults : nat -> option Z := fun _ => None.

Definition fault_at (n : nat) (e : Z) : nat -> option Z := fun k =>
  if bool_decide (k = n) then Some e else None.

Definition sample_names : nat -> string := fun n =>
  "x" +:+ String.string_of_list_ascii (Win32.hex_digits 5 (Z.of_nat n) []).

Definition quiet : env := Env no_faults sample_names (fun _ => 0).

Definition failing (flt : nat -> option Z) : env := Env flt sample_names (fun _ => 0).

Definition empty_world : world := World ∅ ∅ 0 ∅ 3 ∅ 0 [].

(** A world with one file [p] holding [c]. *)
Definition world_with (p c : string) : world :=
  World {[ p := 0%nat ]} {[ 0%nat := c ]} 1 ∅ 3 ∅ 0 [].

Definition linux : platform := Platform "linux2" true None false.
Definition darwin : platform := Platform "darwin" true (Some 51) false.
Definition windows : platform := Platform "win32" true None true.
Definition windows_no_ktm : platform := Platform "win32" true None false.

(** ** The steps of the POSIX primitives, as the specification lists them *)

(** The call that makes descriptor [fd] durable: the full-fsync control
    operation where [fcntl] offers it, the standard call otherwise. *)
Definition durability_step (plat : platform) (fd : nat) : event :=
  match fcntl_F_FULLFSYNC plat with
  | Some cmd => Ev_fcntl fd cmd
  | None => Ev_fsync fd
  end.



(** ** Classes of calls *)

(** Calls that only the move-away-and-replace fallback makes. *)
Definition fallback_call (c : event * bool) : bool :=
  match fst c with
  | Ev_rename _ _ | Ev_unlink _ | Ev_randint _ _ => true
  | _ => false
  end.

Definition plain_move_call (c : event * bool) : bool :=
  match fst c with
  | Ev_MoveFileEx _ _ _ => true
  | _ => false
  end.

(** An environment in which every call fails with "already exists". *)
Definition always_exists : env :=
  Env (fun _ => Some ERROR_ALREADY_EXISTS) sample_names (fun _ => 0).

(** ** Notions the properties of the scoped write are stated with *)


(** The calls issued between two worlds of one run. *)
Definition new_calls (w w' : world) : list (event * bool) :=
  drop (clock w) (trace w').

(** The directory [get_fileobject] stages the temporary file in, and the
    name [mkstemp] builds there from a random part [r]. *)
Definition staging_dir (path : string) (kw : gmap string string) : string :=
  match kw !! "dir" with
  | Some d => d
  | None => normpath (dirname path)
  end.

Definition temp_name (path : string) (kw : gmap string string) (r : string)
    : string :=
  path_join (staging_dir path kw)
    (default tempfile_template (kw !! "prefix") +:+ r
     +:+ default ".atm_tmp" (kw !! "suffix")).

(** The stream [f] writes to inode [i]: as long as it is open its
    descriptor is open on [i], and the inode's contents followed by the
    pending buffer are the bytes [s] handed to the stream so far. *)
Definition stream_inv (f : pyfile) (i : nat) (s : string) (w : world) : Prop :=
  match bufs w !! f_fileno f with
  | None => True
  | Some b =>
      fds w !! f_fileno f = Some (FdFile i)
      ∧ ∃ c, inodes w !! i = Some c ∧ c +:+ b = s
  end.

(** A step of the stream phase: the directory is as it was, and so is every
    inode but [i]. *)
Definition stream_step (i : nat) (w w' : world) : Prop :=
  names w' = names w
  ∧ next_ino w' = next_ino w
  ∧ (∀ j, j ≠ i → inodes w' !! j = inodes w !! j)
  ∧ trace w `prefix_of` trace w'.

(** What a move leaves alone. *)
Definition move_frame (w w' : world) : Prop :=
  inodes w' = inodes w ∧ next_ino w' = next_ino w ∧ bufs w' = bufs w
  ∧ trace w `prefix_of` trace w'.

(** The outcome of a move of [src], an entry of inode [i], onto [dst]:
    done, or refused with nothing changed. *)
Definition moved (src dst : string) (i : nat) (rv : Z) (w w' : world) : Prop :=
  move_frame w w'
  ∧ (Win32.truthy rv = true ∧ names w' = <[dst := i]> (delete src (names w))
     ∨ rv = 0 ∧ names w' = names w).





(** ** Counting calls *)

Definition transacted_move_call (c : event * bool) : bool :=
  match fst c with
  | Ev_MoveFileTransacted _ _ _ _ => true
  | _ => false
  end.

Definition sleep_call (c : event * bool) : bool :=
  match fst c with
  | Ev_sleep _ => true
  | _ => false
  end.

(** How many of the calls are of a class. *)
Definition count_calls (P : event * bool -> bool) (calls : list (event * bool))
    : nat :=
  length (filter (fun c => P c = true) calls).


(** A call on the transaction [ta] inside the loop of [_rename_atomic]: a
    transacted move or a commit on that handle, or a sleep. *)
Definition transaction_step (ta : Z) (c : event * bool) : bool :=
  match fst c with
  | Ev_MoveFileTransacted _ _ _ ta' => ta' =? ta
  | Ev_CommitTransaction ta' => ta' =? ta
  | Ev_sleep _ => true
  | _ => false
  end.


(** ** Classes of calls of the scoped write *)

(** Calls that give a directory entry to an existing file. *)
Definition directory_move (c : event * bool) : bool :=
  match fst c with
  | Ev_link _ _ | Ev_rename _ _ | Ev_MoveFileEx _ _ _
  | Ev_MoveFileTransacted _ _ _ _ => true
  | _ => false
  end.

(** The call [_proper_fsync(fd)] issues. *)
Definition proper_fsync_call (plat : platform) (fd : nat) : event :=
  if negb (is_win32 plat) then durability_step plat fd else Ev_fsync fd.


(** No descriptor at or above the next one to be handed out is open. *)
Definition fds_fresh (w : world) : Prop :=
  ∀ k, (next_fd w ≤ k)%nat → fds w !! k = None.

(** * Properties *)

(** ** Unfolding the POSIX primitives *)

(** The monad and the calls of the POSIX primitives, unfolded. *)
Ltac unfold_posix :=
  unfold move_atomic, replace_atomic, _move_atomic, _replace_atomic,
    Posix._move_atomic, Posix._replace_atomic, Posix._sync_directory,
    _proper_fsync, try_finally, bind, ret, raise,
    os_link, os_unlink, os_rename, os_open_dir, os_fsync, fcntl_fcntl,
    os_close, os_call,
    sem_link, sem_unlink, sem_rename, sem_open_dir, sem_fd_check, sem_close,
    alloc_fd in *.

(** ** C2: the steps of the POSIX placement primitive *)



(** ** C3: which directories the POSIX primitives sync *)

(** The replace primitive opens no directory but the destination's parent. *)
Lemma replace_atomic_posix_opens_destination_only plat src dst en w r w' :
  is_win32 plat = false →
  replace_atomic plat src dst en w = (r, w') →
  ∃ new, trace w' = trace w ++ new
    ∧ ∀ d ok, (Ev_open_dir d, ok) ∈ new → d = normpath (dirname dst).
Proof.
  intros Hplat Hrun. unfold_posix. rewrite Hplat in Hrun. simpl in Hrun.
  repeat (case_match; simplify_eq/=);
    (eexists; split; [rewrite <- ?app_assoc; simpl; reflexivity|]);
    intros d ok Hin; repeat (apply elem_of_cons in Hin as [Hin|Hin]; simplify_eq/=);
    try done; by apply elem_of_nil in Hin.
Qed.

(** The sibling primitive on the same two directories: both are synced. *)
Example move_atomic_syncs_both_directories :
  trace (snd (move_atomic linux "/stage/t" "/data/f" quiet
                (world_with "/stage/t" "new")))
  = [(Ev_link "/stage/t" "/data/f", true); (Ev_unlink "/stage/t", true);
     (Ev_open_dir "/data", true); (Ev_fsync 3, true); (Ev_close 3, true);
     (Ev_open_dir "/stage", true); (Ev_fsync 4, true); (Ev_close 4, true)].
Proof. vm_compute. reflexivity. Qed.

(** C3 (the code departs from it).  [replace_atomic] on a source in
    [/stage] and a destination in [/data], two different directories:
    the call returns, having renamed the file and synced [/data] only;
    [/stage], the source's directory, is never opened. *)
Theorem C3_replace_atomic_leaves_source_directory_unsynced :
  normpath (dirname "/stage/t") ≠ normpath (dirname "/data/f")
  ∧ ∃ w', replace_atomic linux "/stage/t" "/data/f" quiet
            (world_with "/stage/t" "new") = (Ok tt, w')
    ∧ trace w' = [(Ev_rename "/stage/t" "/data/f", true);
                  (Ev_open_dir "/data", true); (Ev_fsync 3, true);
                  (Ev_close 3, true)]
    ∧ ∀ ok, (Ev_open_dir (normpath (dirname "/stage/t")), ok) ∉ trace w'.
Proof.
  split; [by vm_compute|].
  eexists. split; [vm_compute; reflexivity|].
  split; [reflexivity|].
  intros ok Hin. simpl in Hin.
  repeat (apply elem_of_cons in Hin as [Hin|Hin]; [by vm_compute in Hin|]).
  by apply elem_of_nil in Hin.
Qed.

(** ** C4: the replace primitive of win32 *)

(** [_handle_errors] returns [True] or raises: it never returns a false
    value. *)
Lemma handle_errors_true rv en w r w' :
  Win32._handle_errors rv en w = (r, w') →
  w' = w ∧ (r = Ok true ∧ Win32.truthy rv = true
            ∨ r = Raise (WindowsError (last_error w)) ∧ Win32.truthy rv = false).
Proof.
  unfold Win32._handle_errors, WinError, bind, ret, raise.
  destruct (Win32.truthy rv); simpl; intros [= <- <-]; auto.
Qed.

(** C4 (the code departs from it).  On win32 the part of [_replace_atomic]
    after [_handle_errors] is never reached: the primitive is the retried
    move followed by [_handle_errors], which raises when the move failed.
    So when the transacted and the plain move fail throughout with "file
    exists", the call raises that error after its 100 plain attempts; no
    rename to a sibling name, no rename of the source and no unlink is
    issued. *)
Theorem C4_win32_replace_fallback_unreachable :
  (∀ plat src dst en w,
     Win32._replace_atomic plat src dst en w
     = (do rv <- Win32._rename plat src dst;
        Win32._handle_errors rv ;; ret tt) en w)
  ∧ ∃ w', replace_atomic windows "/d/t" "/d/f" always_exists
            (World {[ "/d/t" := 1%nat; "/d/f" := 0%nat ]}
                   {[ 0%nat := "old"; 1%nat := "new" ]} 2 ∅ 3 ∅ 0 [])
          = (Raise (WindowsError ERROR_ALREADY_EXISTS), w')
    ∧ exn_errno (WindowsError ERROR_ALREADY_EXISTS) = Some EEXIST
    ∧ length (filter (fun c => plain_move_call c = true) (trace w')) = 100%nat
    ∧ existsb fallback_call (trace w') = false
    ∧ names w' = {[ "/d/t" := 1%nat; "/d/f" := 0%nat ]}.
Proof.
  split.
  - intros plat src dst en w. unfold Win32._replace_atomic, bind.
    destruct (Win32._rename plat src dst en w) as [[rv|e] w1]; [|done].
    destruct (Win32._handle_errors rv en w1) as [r w2] eqn:Hh.
    apply handle_errors_true in Hh as [-> [[-> _]|[-> _]]]; done.
  - eexists. split; [vm_compute; reflexivity|].
    repeat split; vm_compute; reflexivity.
Qed.

(** ** C6, C8: the modes the constructor refuses *)

Lemma init_refuses plat path mode overwrite kw :
  "a"%char ∈ mode_chars mode ∨ "x"%char ∈ mode_chars mode
  ∨ "w"%char ∉ mode_chars mode →
  ∃ msg, __init__ plat path (Some mode) overwrite kw = Raise (ValueError msg).
Proof.
  intros H. unfold __init__, has_char. simpl.
  repeat case_bool_decide; simpl; eauto.
  destruct H as [?|[?|?]]; done.
Qed.

(** C6.  For a mode that holds 'a' or 'x' the constructor raises
    [ValueError], and the scoped write built on it ends with that error in
    the world it started in: no call was issued (the log is the same) and no
    file was created (the directory entries are the same). *)
Theorem C6_append_or_exclusive_mode_rejected
    plat path mode overwrite kw block en w :
  "a"%char ∈ mode_chars mode ∨ "x"%char ∈ mode_chars mode →
  ∃ msg,
    __init__ plat path (Some mode) overwrite kw = Raise (ValueError msg)
    ∧ atomic_write plat path (Some mode) overwrite kw block en w
      = (Raise (ValueError msg), w).
Proof.
  intros H.
  destruct (init_refuses plat path mode overwrite kw) as [msg Hmsg]; [tauto|].
  exists msg. split; [done|]. unfold atomic_write. by rewrite Hmsg.
Qed.

Lemma C6_append_or_exclusive_mode_rejected_witness :
  ("a"%char ∈ mode_chars "ab" ∨ "x"%char ∈ mode_chars "ab")
  ∧ ∃ msg,
      __init__ linux "/tmp/d/f.txt" (Some "ab") None ∅ = Raise (ValueError msg)
      ∧ atomic_write linux "/tmp/d/f.txt" (Some "ab") None ∅ [Cwrite "hello"]
          quiet (world_with "/tmp/d/f.txt" "old")
        = (Raise (ValueError msg), world_with "/tmp/d/f.txt" "old").
Proof.
  assert (H : "a"%char ∈ mode_chars "ab" ∨ "x"%char ∈ mode_chars "ab")
    by (left; apply (bool_decide_unpack _); vm_compute; exact I).
  split; [exact H|].
  exact (C6_append_or_exclusive_mode_rejected linux "/tmp/d/f.txt" "ab" None ∅
           [Cwrite "hello"] quiet (world_with "/tmp/d/f.txt" "old") H).
Defined.

(** C8.  For a mode without 'w' (such as 'r' or 'rb') the constructor
    raises [ValueError], and the scoped write ends with that error in the
    world it started in. *)
Theorem C8_mode_without_w_rejected plat path mode overwrite kw block en w :
  "w"%char ∉ mode_chars mode →
  ∃ msg,
    __init__ plat path (Some mode) overwrite kw = Raise (ValueError msg)
    ∧ atomic_write plat path (Some mode) overwrite kw block en w
      = (Raise (ValueError msg), w).
Proof.
  intros H.
  destruct (init_refuses plat path mode overwrite kw) as [msg Hmsg]; [tauto|].
  exists msg. split; [done|]. unfold atomic_write. by rewrite Hmsg.
Qed.

Lemma C8_mode_without_w_rejected_witness :
  ("w"%char ∉ mode_chars "rb")
  ∧ ∃ msg,
      __init__ linux "/tmp/d/f.txt" (Some "rb") None ∅ = Raise (ValueError msg)
      ∧ atomic_write linux "/tmp/d/f.txt" (Some "rb") None ∅ [Cwrite "hello"]
          quiet empty_world
        = (Raise (ValueError msg), empty_world).
Proof.
  assert (H : "w"%char ∉ mode_chars "rb")
    by (apply (bool_decide_unpack _); vm_compute; exact I).
  split; [exact H|].
  exact (C8_mode_without_w_rejected linux "/tmp/d/f.txt" "rb" None ∅
           [Cwrite "hello"] quiet empty_world H).
Defined.

(** The three refusals carry their own messages. *)
Example init_messages :
  __init__ linux "/f" (Some "a") None ∅ = Raise (ValueError msg_append)
  ∧ __init__ linux "/f" (Some "wx") None ∅ = Raise (ValueError msg_exclusive)
  ∧ __init__ linux "/f" (Some "r") None ∅ = Raise (ValueError msg_not_writable)
  ∧ __init__ linux "/f" (Some "w+b") None ∅
    = Ok (Build_AtomicWriter "/f" "w+b" false ∅).
Proof. repeat split; vm_compute; reflexivity. Qed.

(** ** C7: the durability sync *)

(** C7.  [sync] on an open stream flushes the pending bytes (one write,
    none when the buffer is empty) and then issues one durability call on
    the stream's descriptor.  Off win32, where [fcntl] has [F_FULLFSYNC]
    (the Apple kernel) that call is [fcntl(fd, F_FULLFSYNC)], and no fsync
    is issued; where [fcntl] lacks it, the call is the standard fsync. *)
Theorem C7_sync_durability_call plat self f b en w r w' :
  bufs w !! f_fileno f = Some b →
  sync plat self f en w = (r, w') →
  let fd := f_fileno f in
  let flushed ok := if bool_decide (b = "") then [] else [(Ev_write fd b, ok)] in
  (b ≠ "" ∧ trace w' = trace w ++ flushed false ∧ is_ok r = false)
  ∨ ∃ call ok,
      trace w' = trace w ++ flushed true ++ [(call, ok)]
      ∧ is_ok r = ok
      ∧ (is_win32 plat = false → ∀ cmd, fcntl_F_FULLFSYNC plat = Some cmd →
         call = Ev_fcntl fd cmd)
      ∧ (fcntl_F_FULLFSYNC plat = None → call = Ev_fsync fd).
Proof.
  intros Hb Hrun. simpl.
  unfold sync, fileno, f_flush, os_write, sem_write, _proper_fsync,
    os_fsync, fcntl_fcntl, os_call, sem_fd_check, bind, ret in Hrun.
  rewrite Hb in Hrun.
  destruct (is_win32 plat) eqn:Hwin; simpl in Hrun;
    (destruct (decide (b = "")) as [->|Hne];
     [rewrite !bool_decide_eq_true_2 in * by done
     |rewrite !bool_decide_eq_false_2 in * by done]);
    repeat (case_match; simplify_map_eq/=);
    first
      [ by left
      | right; eexists _, _;
        (split; [rewrite <- ?app_assoc; simpl; reflexivity|]);
        repeat split; intros; simplify_eq/=; done ].
Qed.

Lemma C7_sync_durability_call_witness :
  let w := World ∅ {[ 0%nat := "" ]} 1 {[ 4%nat := FdFile 0 ]} 5
                 {[ 4%nat := "hello" ]} 0 [] in
  let f := PyFile "/tmp/d/t" 4 in
  bufs w !! f_fileno f = Some "hello"
  ∧ ((trace (snd (sync darwin (Build_AtomicWriter "/tmp/d/f" "w" false ∅) f quiet w))
      = [(Ev_write 4 "hello", false)])
     ∨ ∃ call ok,
         trace (snd (sync darwin (Build_AtomicWriter "/tmp/d/f" "w" false ∅) f quiet w))
         = [(Ev_write 4 "hello", true); (call, ok)]
         ∧ call = Ev_fcntl 4 51).
Proof.
  intros w f.
  assert (Hb : bufs w !! f_fileno f = Some "hello") by reflexivity.
  split; [exact Hb|].
  destruct (C7_sync_durability_call darwin
              (Build_AtomicWriter "/tmp/d/f" "w" false ∅) f "hello" quiet w
              _ _ Hb (surjective_pairing _))
    as [(_ & Ht & _)|(call & ok & Ht & _ & Hd & _)].
  - left. exact Ht.
  - right. exists call, ok. split; [exact Ht|]. by apply Hd.
Defined.

(** A failing full-fsync is not retried with the standard call: the error
    of [fcntl] is the outcome of [sync]. *)
Example full_fsync_failure_propagates :
  let w := World ∅ {[ 0%nat := "" ]} 1 {[ 4%nat := FdFile 0 ]} 5
                 {[ 4%nat := "hello" ]} 0 [] in
  let run := sync darwin (Build_AtomicWriter "/tmp/d/f" "w" false ∅)
               (PyFile "/tmp/d/t" 4) (failing (fault_at 1 EINVAL)) w in
  fst run = Raise (IOError EINVAL)
  ∧ trace (snd run) = [(Ev_write 4 "hello", true); (Ev_fcntl 4 51, false)].
Proof. split; vm_compute; reflexivity. Qed.

(** ** Strings and logs *)

Lemma str_app_assoc (a b c : string) : (a +:+ b) +:+ c = a +:+ (b +:+ c).
Proof.
  induction a as [|x a IH]; [done|].
  change (String x ((a +:+ b) +:+ c) = String x (a +:+ (b +:+ c))).
  by f_equal.
Qed.

Lemma str_app_nil_r (a : string) : a +:+ "" = a.
Proof.
  induction a as [|x a IH]; [done|].
  change (String x (a +:+ "") = String x a). by f_equal.
Qed.



Lemma stream_step_refl i w : stream_step i w w.
Proof. by repeat split. Qed.

Lemma stream_step_trans i w0 w1 w2 :
  stream_step i w0 w1 → stream_step i w1 w2 → stream_step i w0 w2.
Proof.
  intros (Hn & Hx & Hi & Ht) (Hn' & Hx' & Hi' & Ht').
  repeat split; [congruence|congruence| |by etrans].
  intros j Hj. rewrite Hi' by done. by apply Hi.
Qed.

(** ** The temporary file *)

Lemma mkstemp_inner_spec tries dir pre suf en w r w' :
  mkstemp_inner tries dir pre suf en w = (r, w') →
  trace w `prefix_of` trace w'
  ∧ bufs w' = bufs w
  ∧ match r with
    | Ok (fd, name) =>
        names w !! name = None
        ∧ names w' = <[name := next_ino w]> (names w)
        ∧ inodes w' = <[next_ino w := ""]> (inodes w)
        ∧ next_ino w' = S (next_ino w)
        ∧ fds w' = <[fd := FdFile (next_ino w)]> (fds w)
        ∧ (∃ n, name = path_join dir (pre +:+ tmp_names en n +:+ suf))
    | Raise e =>
        names w' = names w ∧ inodes w' = inodes w ∧ next_ino w' = next_ino w
    end.
Proof.
  revert w. induction tries as [|tries IH]; intros w; simpl.
  - intros [= <- <-]. by repeat split.
  - unfold os_open_excl, os_call, sem_open_excl, create_inode, alloc_fd.
    repeat (case_match; simplify_eq/=); intros Hrun; simplify_eq/=;
      try (by repeat split; eauto using prefix_app_r).
    all: apply IH in Hrun as (Hp & Hb & Hr); simpl in *;
      (split; [by etrans; [apply prefix_app_r|exact Hp]|]);
      (split; [done|]); done.
Qed.

Lemma os_close_spec fd en w r w' :
  os_close fd en w = (r, w') →
  names w' = names w ∧ inodes w' = inodes w ∧ next_ino w' = next_ino w
  ∧ bufs w' = bufs w
  ∧ trace w' = trace w ++ [(Ev_close fd, is_ok r)]
  ∧ (∀ fd', fd' ≠ fd → fds w' !! fd' = fds w !! fd').
Proof.
  unfold os_close, os_call, sem_close.
  repeat (case_match; simplify_eq/=); intros [= <- <-]; simpl;
    repeat split; try done; intros; by rewrite lookup_delete_ne.
Qed.

Lemma io_open_spec kwargs name i en w r w' :
  kwargs !! "file" = Some name →
  names w !! name = Some i →
  io_open kwargs en w = (r, w') →
  names w' = names w ∧ next_ino w' = next_ino w
  ∧ trace w `prefix_of` trace w'
  ∧ match r with
    | Ok f =>
        f_name f = name
        ∧ inodes w' = <[i := ""]> (inodes w)
        ∧ bufs w' !! f_fileno f = Some ""
        ∧ fds w' !! f_fileno f = Some (FdFile i)
    | Raise e => inodes w' = inodes w
    end.
Proof.
  intros Hfile Hname. unfold io_open. rewrite Hfile.
  destruct (negb (bool_decide _)); [by intros [= <- <-]|].
  destruct (kwargs !! "mode") as [mode|]; [|by intros [= <- <-]].
  destruct (negb (io_mode_valid mode)); [by intros [= <- <-]|].
  unfold os_open_trunc, os_call, sem_open_trunc, alloc_fd, bind.
  rewrite Hname.
  repeat (case_match; simplify_eq/=); intros [= <- <-]; simpl;
    repeat split; try done; try (by apply prefix_app_r);
    by rewrite lookup_insert_eq.
Qed.

Lemma get_fileobject_spec self kw en w r w' :
  get_fileobject self kw en w = (r, w') →
  trace w `prefix_of` trace w'
  ∧ (∀ j, (j < next_ino w)%nat → inodes w' !! j = inodes w !! j)
  ∧ match r with
    | Ok f =>
        names w !! f_name f = None
        ∧ names w' = <[f_name f := next_ino w]> (names w)
        ∧ inodes w' !! next_ino w = Some ""
        ∧ next_ino w' = S (next_ino w)
        ∧ bufs w' !! f_fileno f = Some ""
        ∧ fds w' !! f_fileno f = Some (FdFile (next_ino w))
        ∧ (∃ n, f_name f = temp_name (_path self) kw (tmp_names en n))
    | Raise e =>
        names w' = names w
        ∨ ∃ n, names w !! temp_name (_path self) kw (tmp_names en n) = None
               ∧ names w' = <[temp_name (_path self) kw (tmp_names en n) := next_ino w]> (names w)
    end.
Proof.
  unfold get_fileobject, mkstemp, bind. intros Hrun.
  destruct (mkstemp_inner _ _ _ _ en w) as [[[fd name]|e] w1] eqn:Hmk;
    apply mkstemp_inner_spec in Hmk as (Hp1 & Hb1 & Hmk); simplify_eq/=.
  2:{ destruct Hmk as (Hn & Hi & Hx). split; [done|].
      split; [by intros; rewrite Hi|by left]. }
  destruct Hmk as (Hfree & Hn1 & Hi1 & Hx1 & Hf1 & n & Hname).
  assert (Htmp : name = temp_name (_path self) kw (tmp_names en n)) by done.
  clear Hname.
  assert (Hold : ∀ j, (j < next_ino w)%nat → inodes w1 !! j = inodes w !! j).
  { intros j Hj. rewrite Hi1, lookup_insert_ne; [done|lia]. }
  destruct (os_close fd en w1) as [[[]|e] w2] eqn:Hcl;
    apply os_close_spec in Hcl as (Hn2 & Hi2 & Hx2 & Hb2 & Ht2 & Hf2);
    simplify_eq/=.
  2:{ split; [rewrite Ht2; by etrans; [|apply prefix_app_r]|].
      split; [by intros; rewrite Hi2; apply Hold|].
      right. exists n. by rewrite Hn2. }
  eapply (io_open_spec _ _ (next_ino w)) in Hrun as (Hn3 & Hx3 & Ht3 & Hr);
    [|by rewrite lookup_insert_eq|by rewrite Hn2, Hn1, lookup_insert_eq].
  split; [etrans; [exact Hp1|]; etrans; [|exact Ht3]; rewrite Ht2;
          apply prefix_app_r; done|].
  destruct r as [f|e].
  - destruct Hr as (Hfn & Hi3 & Hb3 & Hf3).
    split; [intros j Hj; rewrite Hi3, lookup_insert_ne by lia;
            rewrite Hi2; by apply Hold|].
    rewrite Hfn. repeat split; try done.
    + by rewrite Hn3, Hn2.
    + by rewrite Hi3, lookup_insert_eq.
    + by rewrite Hx3, Hx2.
    + by exists n.
  - split; [by intros; rewrite Hr, Hi2; apply Hold|].
    right. exists n. by rewrite Hn3, Hn2.
Qed.

(** ** The stream phase *)

Lemma f_write_spec f i s x en w r w' :
  stream_inv f i s w →
  f_write f x en w = (r, w') →
  stream_step i w w'
  ∧ stream_inv f i (if is_ok r then s +:+ x else s) w'.
Proof.
  unfold stream_inv, f_write. intros Hinv.
  destruct (bufs w !! f_fileno f) as [b|] eqn:Hb; intros [= <- <-]; simpl.
  - split; [by repeat split|].
    rewrite lookup_insert_eq. destruct Hinv as (Hfd & c & Hc & <-).
    split; [done|]. exists c. split; [done|]. by rewrite str_app_assoc.
  - split; [apply stream_step_refl|]. by rewrite Hb.
Qed.

Lemma f_flush_spec f i s en w r w' :
  stream_inv f i s w →
  f_flush f en w = (r, w') →
  stream_step i w w'
  ∧ stream_inv f i s w'
  ∧ (is_ok r = true →
     bufs w' !! f_fileno f = Some "" ∧ inodes w' !! i = Some s
     ∧ fds w' !! f_fileno f = Some (FdFile i)).
Proof.
  unfold stream_inv, f_flush. intros Hinv.
  destruct (bufs w !! f_fileno f) as [b|] eqn:Hb.
  2:{ intros [= <- <-]. rewrite Hb. split; [apply stream_step_refl|done]. }
  destruct Hinv as (Hfd & c & Hc & <-).
  case_bool_decide as Hemp.
  { intros [= <- <-]. rewrite Hb. subst b. rewrite str_app_nil_r.
    split; [apply stream_step_refl|].
    split; [split; [done|exists c; by rewrite str_app_nil_r]|done]. }
  unfold os_write, os_call, sem_write. rewrite Hfd.
  destruct (faults en (clock w)); intros [= <- <-]; simpl.
  - rewrite Hb.
    split; [repeat split; try done; by apply prefix_app_r|].
    split; [by eauto|done].
  - rewrite lookup_insert_eq.
    assert (Ha : alter (λ c0 : string, c0 +:+ b) i (inodes w) !! i
                 = Some (c +:+ b)) by (by rewrite lookup_alter_eq, Hc).
    split; [|split; [split; [done|eexists; split; [exact Ha|apply str_app_nil_r]]|done]].
    repeat split; try done; [|by apply prefix_app_r].
    intros j Hj. simpl. by rewrite lookup_alter_ne.
Qed.

Lemma f_close_spec f i s en w r w' :
  stream_inv f i s w →
  f_close f en w = (r, w') →
  stream_step i w w'
  ∧ bufs w' !! f_fileno f = None
  ∧ (is_ok r = true → is_Some (bufs w !! f_fileno f) → inodes w' !! i = Some s).
Proof.
  intros Hinv. unfold f_close.
  destruct (bufs w !! f_fileno f) as [b|] eqn:Hb.
  2:{ intros [= <- <-]. split; [apply stream_step_refl|].
      split; [done|]. by intros _ [? [=]]. }
  unfold try_finally, mark_closed, bind.
  destruct (f_flush f en w) as [r1 w1] eqn:Hfl.
  apply (f_flush_spec f i s) in Hfl as (Hst & Hinv1 & Hok); [|done].
  destruct (os_close _ en _) as [r2 w2] eqn:Hcl.
  apply os_close_spec in Hcl as (Hn2 & Hi2 & Hx2 & Hb2 & Ht2 & Hf2).
  simpl in *.
  assert (Hstep : stream_step i w w2).
  { eapply stream_step_trans; [exact Hst|].
    repeat split; try done; [by rewrite Hi2|rewrite Ht2; by apply prefix_app_r]. }
  assert (bufs w2 !! f_fileno f = None) by (by rewrite Hb2, lookup_delete_eq).
  destruct r2 as [[]|e]; intros [= <- <-]; (split; [done|]); (split; [done|]).
  - intros Hr _. rewrite Hi2. by apply Hok.
  - done.
Qed.

Lemma sync_spec plat self f i s en w r w' :
  stream_inv f i s w →
  sync plat self f en w = (r, w') →
  stream_step i w w'
  ∧ stream_inv f i s w'
  ∧ (is_ok r = true →
     bufs w' !! f_fileno f = Some "" ∧ inodes w' !! i = Some s).
Proof.
  intros Hinv. unfold sync, bind.
  destruct (f_flush f en w) as [[[]|e] w1] eqn:Hfl;
    apply (f_flush_spec f i s) in Hfl as (Hst & Hinv1 & Hok); [| done | | done].
  2:{ intros [= <- <-]. done. }
  destruct Hok as (Hb1 & Hi1 & Hf1); [done|].
  unfold fileno. rewrite Hb1.
  assert (Hcall : ∀ mk ev,
    os_call mk ev (sem_fd_check mk (f_fileno f)) en w1 = (r, w') →
    stream_step i w w' ∧ stream_inv f i s w'
    ∧ (is_ok r = true →
       bufs w' !! f_fileno f = Some "" ∧ inodes w' !! i = Some s)).
  { intros mk ev. unfold os_call, sem_fd_check. rewrite Hf1.
    destruct (faults en (clock w1)); intros [= <- <-];
      (split; [eapply stream_step_trans; [exact Hst|];
               repeat split; try done; by apply prefix_app_r|]);
      (split; [unfold stream_inv in *; simpl; by rewrite Hb1 in *|]); done. }
  unfold _proper_fsync, os_fsync, fcntl_fcntl.
  destruct (negb (is_win32 plat)); [destruct (fcntl_F_FULLFSYNC plat)|];
    apply Hcall.
Qed.

Lemma run_block_spec f i block : ∀ s en w r w',
  stream_inv f i s w →
  run_block f block en w = (r, w') →
  stream_step i w w'
  ∧ (∃ s', stream_inv f i s' w')
  ∧ (is_ok r = true → stream_inv f i (s +:+ written block) w').
Proof.
  induction block as [|c block IH]; intros s en w r w' Hinv; simpl.
  - intros [= <- <-]. rewrite str_app_nil_r.
    split; [apply stream_step_refl|]. eauto.
  - destruct c as [x| | |e]; unfold bind.
    + destruct (f_write f x en w) as [[[]|e] w1] eqn:Hw;
        apply (f_write_spec f i s) in Hw as (Hst & Hinv1); [| done | | done];
        simpl in Hinv1.
      * intros Hrun. apply (IH (s +:+ x)) in Hrun as (Hst2 & Hex & Hok); [|done].
        split; [by eapply stream_step_trans|]. split; [done|].
        by rewrite <- str_app_assoc.
      * intros [= <- <-]. split; [done|]. split; [eauto|done].
    + destruct (f_flush f en w) as [[[]|e] w1] eqn:Hw;
        apply (f_flush_spec f i s) in Hw as (Hst & Hinv1 & _); [| done | | done].
      * intros Hrun. apply (IH s) in Hrun as (Hst2 & Hex & Hok); [|done].
        split; [by eapply stream_step_trans|]. done.
      * intros [= <- <-]. split; [done|]. split; [eauto|done].
    + destruct (f_close f en w) as [[[]|e] w1] eqn:Hw;
        apply (f_close_spec f i s) in Hw as (Hst & Hcl & _); [| done | | done].
      * intros Hrun. apply (IH s) in Hrun as (Hst2 & Hex & Hok);
          [|by unfold stream_inv; rewrite Hcl].
        split; [by eapply stream_step_trans|]. done.
      * intros [= <- <-]. split; [done|].
        split; [exists s; by unfold stream_inv; rewrite Hcl|done].
    + intros [= <- <-]. split; [apply stream_step_refl|]. split; [eauto|done].
Qed.

(** ** The commit *)

Lemma move_atomic_posix_spec plat src dst i en w r w' :
  is_win32 plat = false →
  names w !! src = Some i →
  move_atomic plat src dst en w = (r, w') →
  inodes w' = inodes w ∧ next_ino w' = next_ino w ∧ bufs w' = bufs w
  ∧ trace w `prefix_of` trace w'
  ∧ match r with
    | Ok _ =>
        names w !! dst = None
        ∧ names w' = delete src (<[dst := i]> (names w))
    | Raise e =>
        (names w' = names w
         ∧ (is_Some (names w !! dst) → faults en (clock w) = None →
            e = OSError EEXIST))
        ∨ (names w !! dst = None
           ∧ (Ev_link src dst, true) ∈ new_calls w w'
           ∧ (names w' = <[dst := i]> (names w)
              ∨ names w' = delete src (<[dst := i]> (names w))))
    end.
Proof.
  intros Hplat Hsrc Hrun. unfold_posix.
  rewrite Hplat in Hrun. simpl in Hrun. rewrite Hsrc in Hrun.
  repeat (case_match; simplify_eq/=);
    (split; [done|]); (split; [done|]); (split; [done|]);
    (split; [rewrite <- ?app_assoc; by apply prefix_app_r|]);
    try (by left; split; [done|intros [? ?]; congruence]);
    try (by left; split; [done|intros [? [=]]]);
    try done;
    right; (split; [done|]);
    (split; [unfold new_calls, clock; simpl; rewrite <- ?app_assoc, drop_app_length;
             by left|]);
    auto.
Qed.

Lemma replace_atomic_posix_spec plat src dst i en w r w' :
  is_win32 plat = false →
  names w !! src = Some i →
  names w !! dst ≠ Some i →
  replace_atomic plat src dst en w = (r, w') →
  inodes w' = inodes w ∧ next_ino w' = next_ino w ∧ bufs w' = bufs w
  ∧ trace w `prefix_of` trace w'
  ∧ match r with
    | Ok _ => names w' = <[dst := i]> (delete src (names w))
    | Raise e =>
        names w' = names w
        ∨ ((Ev_rename src dst, true) ∈ new_calls w w'
           ∧ names w' = <[dst := i]> (delete src (names w)))
    end.
Proof.
  intros Hplat Hsrc Hdst Hrun. unfold_posix.
  rewrite Hplat in Hrun. simpl in Hrun. rewrite Hsrc in Hrun.
  rewrite bool_decide_eq_false_2 in Hrun by done.
  repeat (case_match; simplify_eq/=);
    (split; [done|]); (split; [done|]); (split; [done|]);
    (split; [rewrite <- ?app_assoc; by apply prefix_app_r|]);
    try (by left);
    try done;
    right;
    (split; [unfold new_calls, clock; simpl; rewrite <- ?app_assoc, drop_app_length;
             by left|]);
    auto.
Qed.

(** *** win32 *)

Lemma move_frame_refl w : move_frame w w.
Proof. by repeat split. Qed.

Lemma move_frame_trans w0 w1 w2 :
  move_frame w0 w1 → move_frame w1 w2 → move_frame w0 w2.
Proof.
  intros (? & ? & ? & ?) (? & ? & ? & ?).
  repeat split; try congruence. by etrans.
Qed.

Lemma truthy_false rv : Win32.truthy rv = false → rv = 0.
Proof. unfold Win32.truthy. intros H. apply negb_false_iff in H. lia. Qed.

Lemma MoveFileExW_spec src dst flags i en w r w' :
  names w !! src = Some i →
  MoveFileExW src dst flags en w = (r, w') →
  ∃ rv, r = Ok rv ∧ moved src dst i rv w w'
    ∧ (Win32.truthy rv = true → Z.land flags _MOVEFILE_REPLACE_EXISTING = 0 →
       names w !! dst = None)
    ∧ (is_Some (names w !! dst) → Z.land flags _MOVEFILE_REPLACE_EXISTING = 0 →
       faults en (clock w) = None →
       rv = 0 ∧ last_error w' = ERROR_ALREADY_EXISTS).
Proof.
  intros Hsrc. unfold MoveFileExW, win_call, sem_MoveFileEx, move_check, apply_move.
  rewrite Hsrc.
  repeat (case_match; simplify_eq/=); intros [= <- <-]; eexists; (split; [done|]);
    unfold moved, move_frame; simpl;
    (split; [split; [by repeat split; try apply prefix_app_r|by auto]|]);
    split; try done; try (by intros [? [=]]); try (intros; exfalso; lia).
Qed.

Lemma rename_loop_truthy fuel src dst retry rv en w :
  Win32.truthy rv = true →
  Win32._rename_loop fuel src dst retry rv en w = (Ok rv, w).
Proof. intros H. destruct fuel; simpl; [done|]. by rewrite H. Qed.

(** *** The fuel of the two retry loops *)

Lemma rename_loop_unfold fuel src dst retry rv :
  Win32._rename_loop (S fuel) src dst retry rv
  = if negb (Win32.truthy rv) && (retry <? 100) then
      do rv <- MoveFileExW (_path_to_unicode src) (_path_to_unicode dst)
                 (Z.lor _windows_default_flags _MOVEFILE_REPLACE_EXISTING);
      if negb (Win32.truthy rv) then
        time_sleep 1000 ;;
        Win32._rename_loop fuel src dst (retry + 1) rv
      else Win32._rename_loop fuel src dst retry rv
    else ret rv.
Proof. reflexivity. Qed.

(** Fuel beyond [100 - retry] changes nothing: the loop of [_rename] ends by
    its own test, never by the fuel of the model. *)
Lemma rename_loop_fuel src dst fuel : ∀ retry rv en w,
  100 - retry ≤ Z.of_nat fuel →
  Win32._rename_loop (S fuel) src dst retry rv en w
  = Win32._rename_loop fuel src dst retry rv en w.
Proof.
  induction fuel as [|fuel IH]; intros retry rv en w Hfuel.
  - rewrite rename_loop_unfold. simpl.
    replace (retry <? 100) with false by (symmetry; apply Z.ltb_ge; lia).
    by rewrite andb_false_r.
  - rewrite (rename_loop_unfold (S fuel)), (rename_loop_unfold fuel).
    destruct (negb (Win32.truthy rv) && (retry <? 100)); [|done].
    unfold bind at 1 3.
    destruct (MoveFileExW _ _ _ en w) as [[rv1|e] w1]; [|done].
    destruct (Win32.truthy rv1) eqn:Ht; cbn [negb].
    + by rewrite !rename_loop_truthy.
    + unfold bind, time_sleep. apply IH. lia.
Qed.

Lemma rename_atomic_loop_unfold fuel src dst ta retry rv :
  Win32._rename_atomic_loop (S fuel) src dst ta retry rv
  = if negb (Win32.truthy rv) && (retry <? 100) then
      do rv <- _MoveFileTransacted (_path_to_unicode src) (_path_to_unicode dst)
                 (Z.lor _MOVEFILE_REPLACE_EXISTING _MOVEFILE_WRITE_THROUGH) ta;
      if Win32.truthy rv then _CommitTransaction ta
      else
        time_sleep 1000 ;;
        Win32._rename_atomic_loop fuel src dst ta (retry + 1) rv
    else ret rv.
Proof. reflexivity. Qed.

(** The same for the loop of [_rename_atomic]. *)
Lemma rename_atomic_loop_fuel src dst ta fuel : ∀ retry rv en w,
  100 - retry ≤ Z.of_nat fuel →
  Win32._rename_atomic_loop (S fuel) src dst ta retry rv en w
  = Win32._rename_atomic_loop fuel src dst ta retry rv en w.
Proof.
  induction fuel as [|fuel IH]; intros retry rv en w Hfuel.
  - rewrite rename_atomic_loop_unfold. simpl.
    replace (retry <? 100) with false by (symmetry; apply Z.ltb_ge; lia).
    by rewrite andb_false_r.
  - rewrite (rename_atomic_loop_unfold (S fuel)),
      (rename_atomic_loop_unfold fuel).
    destruct (negb (Win32.truthy rv) && (retry <? 100)); [|done].
    unfold bind at 1 3.
    destruct (_MoveFileTransacted _ _ _ _ en w) as [[rv1|e] w1]; [|done].
    destruct (Win32.truthy rv1) eqn:Ht; [done|].
    unfold bind, time_sleep. apply IH. lia.
Qed.

Lemma rename_loop_spec src dst i fuel : ∀ retry en w r w',
  names w !! src = Some i →
  Win32._rename_loop fuel src dst retry 0 en w = (r, w') →
  ∃ rv, r = Ok rv ∧ moved src dst i rv w w'.
Proof.
  induction fuel as [|fuel IH]; intros retry en w r w' Hsrc; simpl.
  - intros [= <- <-]. exists 0. split; [done|].
    split; [apply move_frame_refl|by right].
  - destruct (retry <? 100).
    2:{ intros [= <- <-]. exists 0. split; [done|].
        split; [apply move_frame_refl|by right]. }
    unfold bind at 1.
    destruct (MoveFileExW _ _ _ en w) as [r1 w1] eqn:Hmv.
    eapply MoveFileExW_spec in Hmv as (rv & -> & (Hfr & Hmv) & _); [|done].
    destruct Hmv as [[Ht Hn]|[-> Hn]].
    + rewrite Ht. simpl. rewrite rename_loop_truthy by done.
      intros [= <- <-]. exists rv. split; [done|]. split; [done|by left].
    + simpl. unfold bind, time_sleep. intros Hrun.
      apply IH in Hrun as (rv & -> & Hfr2 & Hmv2);
        [|by simpl; rewrite Hn].
      exists rv. split; [done|].
      assert (Hfr1 : move_frame w (log (Ev_sleep 1000) true w1)).
      { destruct Hfr as (? & ? & ? & ?). repeat split; try done.
        simpl. etrans; [done|]. by apply prefix_app_r. }
      split; [by eapply move_frame_trans|].
      simpl in Hmv2. by rewrite Hn in Hmv2.
Qed.

Lemma transacted_move_spec src dst flags ta i en w r w' :
  names w !! src = Some i →
  (do rv <- _MoveFileTransacted src dst flags ta;
   if Win32.truthy rv then _CommitTransaction ta else ret rv) en w = (r, w') →
  ∃ rv, r = Ok rv ∧ moved src dst i rv w w'.
Proof.
  intros Hsrc.
  unfold bind, _MoveFileTransacted, _CommitTransaction, win_call, ret,
    sem_MoveFileTransacted, sem_CommitTransaction, lookup_txn, move_check,
    apply_move.
  rewrite Hsrc.
  repeat (case_match; simplify_map_eq/=); intros; simplify_map_eq/=;
    eexists; (split; [done|]); unfold moved, move_frame; simpl;
    (split; [repeat split; rewrite <- ?app_assoc; by apply prefix_app_r|]);
    auto.
Qed.

Lemma rename_atomic_loop_spec src dst ta i fuel : ∀ retry en w r w',
  names w !! src = Some i →
  Win32._rename_atomic_loop fuel src dst ta retry 0 en w = (r, w') →
  ∃ rv, r = Ok rv ∧ moved src dst i rv w w'.
Proof.
  induction fuel as [|fuel IH]; intros retry en w r w' Hsrc; simpl.
  - intros [= <- <-]. exists 0. split; [done|].
    split; [apply move_frame_refl|by right].
  - destruct (retry <? 100).
    2:{ intros [= <- <-]. exists 0. split; [done|].
        split; [apply move_frame_refl|by right]. }
    unfold _path_to_unicode.
    set (flags := Z.lor _ _).
    intros Hrun.
    destruct ((do rv <- _MoveFileTransacted src dst flags ta;
               if Win32.truthy rv then _CommitTransaction ta else ret rv) en w)
      as [r1 w1] eqn:Hone.
    pose proof Hone as Hsp.
    eapply transacted_move_spec in Hsp as (rv1 & -> & Hfr & Hmv); [|done].
    unfold bind in Hone, Hrun.
    destruct (_MoveFileTransacted src dst flags ta en w) as [[rvm|e] wm] eqn:Hm;
      [|done].
    destruct (Win32.truthy rvm) eqn:Htm.
    + rewrite Hone in Hrun. simplify_eq. exists rv1. split; [done|by split].
    + unfold ret in Hone. simplify_eq. apply truthy_false in Htm as ->.
      destruct Hmv as [[Ht _]|[_ Hn]]; [done|].
      unfold time_sleep in Hrun.
      apply IH in Hrun as (rv & -> & Hfr2 & Hmv2); [|by simpl; rewrite Hn].
      exists rv. split; [done|].
      assert (Hfr1 : move_frame w (log (Ev_sleep 1000) true w1)).
      { destruct Hfr as (? & ? & ? & ?). repeat split; try done.
        simpl. etrans; [done|]. by apply prefix_app_r. }
      split; [by eapply move_frame_trans|].
      simpl in Hmv2. by rewrite Hn in Hmv2.
Qed.

Lemma rename_atomic_spec plat src dst i en w r w' :
  names w !! src = Some i →
  Win32._rename_atomic plat src dst en w = (r, w') →
  ∃ rv, r = Ok rv ∧ moved src dst i rv w w'.
Proof.
  intros Hsrc. unfold Win32._rename_atomic.
  destruct (negb (transactional_ntfs_supported plat)).
  { intros [= <- <-]. exists 0. split; [done|].
    split; [apply move_frame_refl|by right]. }
  unfold bind at 1, _CreateTransaction, alloc_fd.
  destruct (faults en (clock w)) eqn:Hf.
  { change (-1 =? -1) with true. cbv iota beta. intros [= <- <-]. exists 0. split; [done|].
    split; [|by right]. repeat split; try done. by apply prefix_app_r. }
  destruct (Z.of_nat (next_fd w) =? -1) eqn:Hneg; [apply Z.eqb_eq in Hneg; lia|].
  unfold try_finally.
  destruct (Win32._rename_atomic_loop _ _ _ _ _ _ _ _) as [r1 w1] eqn:Hloop.
  eapply rename_atomic_loop_spec in Hloop as (rv & -> & Hfr & Hmv);
    [|by simpl].
  unfold bind, _CloseHandle, win_call, sem_CloseHandle, ret.
  assert (Hfr0 : ∀ w2, inodes w2 = inodes w1 → next_ino w2 = next_ino w1 →
            bufs w2 = bufs w1 → trace w1 `prefix_of` trace w2 →
            move_frame w w2).
  { intros w2 ? ? ? ?. destruct Hfr as (? & ? & ? & Hp). simpl in *.
    repeat split; try congruence.
    etrans; [|done]. etrans; [|exact Hp]. by apply prefix_app_r. }
  simpl in Hmv.
  repeat (case_match; simplify_eq/=); intros; simplify_eq/=;
    exists rv; (split; [done|]);
    (split; [apply Hfr0; simpl; try done; by apply prefix_app_r|]); done.
Qed.

Lemma rename_spec plat src dst i en w r w' :
  names w !! src = Some i →
  Win32._rename plat src dst en w = (r, w') →
  ∃ rv, r = Ok rv ∧ moved src dst i rv w w'.
Proof.
  intros Hsrc. unfold Win32._rename, bind.
  destruct (Win32._rename_atomic plat src dst en w) as [r1 w1] eqn:Hat.
  eapply rename_atomic_spec in Hat as (rv1 & -> & Hfr & Hmv); [|done].
  destruct (Win32.truthy rv1) eqn:Ht.
  - intros [= <- <-]. exists 1. split; [done|]. split; [done|].
    left. destruct Hmv as [[_ Hn]|[-> _]]; done.
  - destruct Hmv as [[Ht' _]|[_ Hn]]; [congruence|].
    intros Hrun. apply (rename_loop_spec src dst i) in Hrun as (rv & -> & Hfr2 & Hmv2);
      [|by rewrite Hn].
    exists rv. split; [done|].
    split; [by eapply move_frame_trans|]. by rewrite Hn in Hmv2.
Qed.

Lemma replace_atomic_win32_spec plat src dst i en w r w' :
  names w !! src = Some i →
  Win32._replace_atomic plat src dst en w = (r, w') →
  move_frame w w'
  ∧ match r with
    | Ok _ => names w' = <[dst := i]> (delete src (names w))
    | Raise e => names w' = names w
    end.
Proof.
  intros Hsrc. unfold Win32._replace_atomic, bind.
  destruct (Win32._rename plat src dst en w) as [r1 w1] eqn:Hrn.
  eapply rename_spec in Hrn as (rv & -> & Hfr & Hmv); [|done].
  unfold Win32._handle_errors, WinError, bind, ret, raise.
  destruct Hmv as [[Ht Hn]|[-> Hn]].
  - rewrite Ht. simpl. by intros [= <- <-].
  - simpl. by intros [= <- <-].
Qed.

Lemma move_atomic_win32_spec plat src dst i en w r w' :
  names w !! src = Some i →
  Win32._move_atomic plat src dst en w = (r, w') →
  move_frame w w'
  ∧ match r with
    | Ok _ => names w !! dst = None
              ∧ names w' = <[dst := i]> (delete src (names w))
    | Raise e =>
        names w' = names w
        ∧ (is_Some (names w !! dst) → faults en (clock w) = None →
           e = WindowsError ERROR_ALREADY_EXISTS)
    end.
Proof.
  intros Hsrc. unfold Win32._move_atomic, bind, _path_to_unicode.
  destruct (MoveFileExW src dst _ en w) as [r1 w1] eqn:Hmv.
  eapply MoveFileExW_spec in Hmv as (rv & -> & (Hfr & Hmv) & Hfree & Hex); [|done].
  unfold Win32._handle_errors, WinError, bind, ret, raise.
  destruct Hmv as [[Ht Hn]|[-> Hn]].
  - rewrite Ht. simpl. intros [= <- <-]. split; [done|]. split; [|done].
    by apply Hfree.
  - simpl. intros [= <- <-]. split; [done|]. split; [done|].
    intros Hd Hf. destruct (Hex Hd) as [_ ->]; done.
Qed.


(** ** The scoped write *)




Lemma os_unlink_spec p en w r w' :
  os_unlink p en w = (r, w') →
  inodes w' = inodes w ∧ next_ino w' = next_ino w
  ∧ trace w' = trace w ++ [(Ev_unlink p, is_ok r)]
  ∧ names w' = (if is_ok r then delete p (names w) else names w).
Proof.
  unfold os_unlink, os_call, sem_unlink.
  repeat (case_match; simplify_eq/=); by intros [= <- <-].
Qed.


Lemma f_close_closed f en w :
  bufs w !! f_fileno f = None → f_close f en w = (Ok tt, w).
Proof. intros H. unfold f_close. by rewrite H. Qed.



(** ** Runs the environment does not disturb *)

Section Undisturbed.

Variable en : env.
Hypothesis no_fault : ∀ n, faults en n = None.






End Undisturbed.

Lemma stream_phase_spec plat self f i block en w r w' :
  stream_inv f i "" w →
  (run_block f block ;; sync plat self f ;; f_close f) en w = (r, w') →
  stream_step i w w'
  ∧ (is_ok r = true → bufs w' !! f_fileno f = None).
Proof.
  intros Hinv. unfold bind.
  destruct (run_block f block en w) as [[[]|e1] w1] eqn:H1;
    apply (run_block_spec f i block "") in H1 as (Hs1 & Hex1 & Hok1); try done.
  2:{ by intros [= <- <-]. }
  specialize (Hok1 eq_refl).
  destruct (sync plat self f en w1) as [[[]|e2] w2] eqn:H2;
    apply (sync_spec plat self f i ("" +:+ written block)) in H2
      as (Hs2 & Hinv2 & Hok2); try done.
  2:{ intros [= <- <-]. split; [by eapply stream_step_trans|done]. }
  intros H3.
  apply (f_close_spec f i ("" +:+ written block)) in H3 as (Hs3 & Hb3 & _);
    [|done].
  split; [|done].
  eapply stream_step_trans; [done|]. by eapply stream_step_trans.
Qed.

Lemma bind_assoc4 (a b c d : M unit) en w w3 :
  (a ;; b ;; c) en w = (Ok tt, w3) →
  (a ;; b ;; c ;; d) en w = d en w3.
Proof.
  unfold bind.
  destruct (a en w) as [[[]|?] w1]; [|done].
  destruct (b en w1) as [[[]|?] w2]; [|done].
  destruct (c en w2) as [[[]|?] w3']; [|done].
  by intros [= ->].
Qed.


(** ** C1, C5, C9, C10: the outcome of the scoped write *)







(** The run of the counterexample, call by call. *)
Example failure_after_rename_run :
  let run := atomic_write linux "/tmp/d/f.txt" None (Some true) ∅
               [Cwrite "new"] (failing (fault_at 7 EACCES))
               (world_with "/tmp/d/f.txt" "old") in
  fst run = Raise (OSError EACCES)
  ∧ read_path (snd run) "/tmp/d/f.txt" = Some "new"
  ∧ trace (snd run)
    = [(Ev_open_excl "/tmp/d/tmpx00000.atm_tmp", true); (Ev_close 3, true);
       (Ev_open_trunc "/tmp/d/tmpx00000.atm_tmp", true);
       (Ev_write 4 "new", true); (Ev_fsync 4, true); (Ev_close 4, true);
       (Ev_rename "/tmp/d/tmpx00000.atm_tmp" "/tmp/d/f.txt", true);
       (Ev_open_dir "/tmp/d", false);
       (Ev_unlink "/tmp/d/tmpx00000.atm_tmp", false)].
Proof. repeat split; vm_compute; reflexivity. Qed.



(** The end-to-end example of the specification, on win32 as on POSIX. *)
Example end_to_end :
  let path := "/tmp/d/f.txt" in
  let r1 := atomic_write linux path None (Some false) ∅ [Cwrite "hello"]
              quiet empty_world in
  let r2 := atomic_write linux path None (Some false) ∅ [Cwrite "hello"]
              quiet (snd r1) in
  let r3 := atomic_write linux path None (Some true) ∅ [Cwrite "world"]
              quiet (snd r2) in
  fst r1 = Ok tt ∧ read_path (snd r1) path = Some "hello"
  ∧ fst r2 = Raise (OSError EEXIST) ∧ read_path (snd r2) path = Some "hello"
  ∧ fst r3 = Ok tt ∧ read_path (snd r3) path = Some "world"
  ∧ fst (atomic_write windows path None (Some false) ∅ [Cwrite "hello"]
           quiet (snd r1)) = Raise (WindowsError ERROR_ALREADY_EXISTS).
Proof. repeat split; vm_compute; reflexivity. Qed.



(** C9 (the code departs from it).  When [get_fileobject] raises, [open]
    ends with that very exception in the world [get_fileobject] left:
    [rollback(None)] raises, is passed over and issues no call.  But the
    temporary file may be there already: with mode "wr", which the
    constructor accepts, [mkstemp] creates the file and [io.open] then
    refuses the mode; the scoped write raises that [ValueError] and the
    temporary file stays in the directory, with no unlink issued. *)
Theorem C9_failed_open_leaves_temporary_file :
  (∀ plat self block en w e w1,
     get_fileobject self (_open_kwargs self) en w = (Raise e, w1) →
     open plat self block en w = (Raise e, w1))
  ∧ ∃ w', atomic_write linux "/tmp/d/f.txt" (Some "wr") None ∅
            [Cwrite "new"] quiet (world_with "/tmp/d/f.txt" "old")
          = (Raise (ValueError "invalid mode"), w')
    ∧ names (world_with "/tmp/d/f.txt" "old") !! "/tmp/d/tmpx00000.atm_tmp"
      = None
    ∧ names w' !! "/tmp/d/tmpx00000.atm_tmp" = Some 1%nat
    ∧ trace w' = [(Ev_open_excl "/tmp/d/tmpx00000.atm_tmp", true);
                  (Ev_close 3, true)].
Proof.
  split.
  - intros plat self block en w e w1 Hg. unfold open, _open. by rewrite Hg.
  - eexists. split; [vm_compute; reflexivity|].
    repeat split; vm_compute; reflexivity.
Qed.

(** * Further properties of the code *)

(** * Further properties of the primitives *)

(** ** [_sync_directory] *)

(** X1.  Off win32, [_sync_directory] opens the directory, issues the
    durability call on the descriptor and closes it, also when the
    durability call fails: after a successful open the close is always the
    last call, the run returns exactly when both calls succeed, and once the
    close has succeeded the descriptor is open no more.  No entry and no
    content changes. *)
Theorem X1_sync_directory_releases_descriptor plat d en w r w' :
  is_win32 plat = false →
  Posix._sync_directory plat d en w = (r, w') →
  names w' = names w ∧ inodes w' = inodes w
  ∧ ((trace w' = trace w ++ [(Ev_open_dir d, false)]
      ∧ is_ok r = false ∧ fds w' = fds w)
     ∨ ∃ synced closed,
         trace w' = trace w ++ [(Ev_open_dir d, true);
                                (durability_step plat (next_fd w), synced);
                                (Ev_close (next_fd w), closed)]
         ∧ is_ok r = synced && closed
         ∧ (closed = true → fds w' !! next_fd w = None)).
Proof.
  intros Hplat Hrun. unfold durability_step. unfold_posix.
  rewrite Hplat in Hrun. simpl in Hrun.
  repeat (case_match; simplify_map_eq/=);
    (split; [done|]); (split; [done|]);
    first
      [ by left
      | right; eexists _, _;
        (split; [rewrite <- ?app_assoc; simpl; reflexivity|]);
        split; [done|]; intros; simplify_map_eq/=; done ].
Qed.

Lemma X1_sync_directory_releases_descriptor_witness :
  let run := Posix._sync_directory linux "/data" (failing (fault_at 1 EINVAL))
               empty_world in
  is_win32 linux = false
  ∧ fst run = Raise (OSError EINVAL)
  ∧ trace (snd run) = [(Ev_open_dir "/data", true); (Ev_fsync 3, false);
                       (Ev_close 3, true)]
  ∧ fds (snd run) !! 3%nat = None.
Proof.
  intros run.
  assert (Hplat : is_win32 linux = false) by reflexivity.
  destruct (X1_sync_directory_releases_descriptor linux "/data"
              (failing (fault_at 1 EINVAL)) empty_world (fst run) (snd run)
              Hplat (surjective_pairing run)) as (_ & _ & H).
  split; [exact Hplat|]. split; [vm_compute; reflexivity|].
  split; [vm_compute; reflexivity|].
  destruct H as [(Ht & _)|(synced & closed & Ht & _ & Hfd)].
  - vm_compute in Ht. discriminate Ht.
  - apply Hfd. vm_compute in Ht. by injection Ht as _ <-.
Defined.

(** ** The effect of the POSIX primitives on the directory *)

(** X2.  Off win32, [replace_atomic] of an existing source onto a
    destination that is not another name of the same file is all or
    nothing on the directory: either no entry changes, or the destination
    entry now names the source's file and the source entry is gone, and no
    entry besides these two ever changes, nor any content.  When the call
    returns the rename is done: the destination reads as the source did.
    When it raises with the rename done, the rename call had succeeded (the
    directory sync after it failed). *)
Theorem X2_replace_atomic_posix_effect plat src dst i en w r w' :
  is_win32 plat = false →
  names w !! src = Some i →
  names w !! dst ≠ Some i →
  replace_atomic plat src dst en w = (r, w') →
  inodes w' = inodes w
  ∧ (names w' = names w ∨ names w' = <[dst := i]> (delete src (names w)))
  ∧ (∀ p, p ≠ src → p ≠ dst → read_path w' p = read_path w p)
  ∧ (is_ok r = true →
     read_path w' dst = read_path w src ∧ names w' !! src = None)
  ∧ (is_ok r = false → names w' ≠ names w →
     (Ev_rename src dst, true) ∈ new_calls w w').
Proof.
  intros Hplat Hsrc Hdst Hrun.
  assert (Hne : src ≠ dst) by congruence.
  apply (replace_atomic_posix_spec _ _ _ i) in Hrun
    as (Hi & _ & _ & _ & Hr); [|done..].
  assert (Hcases : names w' = names w
                   ∨ names w' = <[dst := i]> (delete src (names w))).
  { destruct r as [[]|e]; [by right|]. destruct Hr as [?|[_ ?]]; auto. }
  split; [done|]. split; [done|]. split; [|split].
  - intros p Hps Hpd. unfold read_path. rewrite Hi.
    destruct Hcases as [->| ->]; [done|].
    by rewrite lookup_insert_ne, lookup_delete_ne.
  - intros Hok. destruct r as [[]|e]; [|done]. unfold read_path.
    rewrite Hr, Hi, Hsrc, lookup_insert_eq.
    split; [done|]. by rewrite lookup_insert_ne, lookup_delete_eq.
  - intros Hfail Hch. destruct r as [[]|e]; [done|].
    destruct Hr as [?|[? _]]; done.
Qed.

Lemma X2_replace_atomic_posix_effect_witness :
  let w := World {[ "/d/t" := 1%nat; "/d/f" := 0%nat ]}
                 {[ 0%nat := "old"; 1%nat := "new" ]} 2 ∅ 3 ∅ 0 [] in
  let run := replace_atomic linux "/d/t" "/d/f" quiet w in
  is_win32 linux = false
  ∧ names w !! "/d/t" = Some 1%nat
  ∧ names w !! "/d/f" ≠ Some 1%nat
  ∧ fst run = Ok tt
  ∧ read_path (snd run) "/d/f" = Some "new"
  ∧ names (snd run) !! "/d/t" = None.
Proof.
  intros w run.
  assert (Hplat : is_win32 linux = false) by reflexivity.
  assert (Hsrc : names w !! "/d/t" = Some 1%nat) by reflexivity.
  assert (Hdst : names w !! "/d/f" ≠ Some 1%nat) by (vm_compute; congruence).
  assert (Hok : fst run = Ok tt) by (vm_compute; reflexivity).
  destruct (X2_replace_atomic_posix_effect linux "/d/t" "/d/f" 1 quiet w
              (fst run) (snd run) Hplat Hsrc Hdst (surjective_pairing run))
    as (_ & _ & _ & Hdone & _).
  destruct Hdone as [Hread Hgone]; [by rewrite Hok|].
  repeat split; done.
Defined.

(** X3.  Off win32, [move_atomic] of an existing source never loses the
    file: in every outcome the source entry or the destination entry names
    it, no other entry changes and no content changes.  When the call
    returns, the destination was absent before, now reads as the source
    did, and the source entry is gone. *)
Theorem X3_move_atomic_posix_effect plat src dst i en w r w' :
  is_win32 plat = false →
  names w !! src = Some i →
  move_atomic plat src dst en w = (r, w') →
  inodes w' = inodes w
  ∧ (names w' !! src = Some i ∨ names w' !! dst = Some i)
  ∧ (∀ p, p ≠ src → p ≠ dst → read_path w' p = read_path w p)
  ∧ (is_ok r = true →
     names w !! dst = None
     ∧ read_path w' dst = read_path w src ∧ names w' !! src = None).
Proof.
  intros Hplat Hsrc Hrun.
  apply (move_atomic_posix_spec _ _ _ i) in Hrun
    as (Hi & _ & _ & _ & Hr); [|done..].
  assert (Hcases : names w' = names w
                   ∨ names w !! dst = None
                     ∧ (names w' = <[dst := i]> (names w)
                        ∨ names w' = delete src (<[dst := i]> (names w)))).
  { destruct r as [[]|e].
    - destruct Hr as [Hnone Hn]. right. auto.
    - destruct Hr as [[? _]|(Hnone & _ & Hn)]; [by left|right; by split]. }
  split; [done|]. split; [|split].
  - destruct Hcases as [->|(Hnone & [->| ->])]; [by left|right..].
    + by rewrite lookup_insert_eq.
    + assert (src ≠ dst) by congruence.
      by rewrite lookup_delete_ne, lookup_insert_eq.
  - intros p Hps Hpd. unfold read_path. rewrite Hi.
    destruct Hcases as [->|(_ & [->| ->])]; [done|..].
    + by rewrite lookup_insert_ne.
    + by rewrite lookup_delete_ne, lookup_insert_ne.
  - intros Hok. destruct r as [[]|e]; [|done]. destruct Hr as [Hnone Hn].
    assert (src ≠ dst) by congruence.
    split; [done|]. split; [|by rewrite Hn, lookup_delete_eq].
    unfold read_path.
    by rewrite Hn, Hi, Hsrc, lookup_delete_ne, lookup_insert_eq.
Qed.

Lemma X3_move_atomic_posix_effect_witness :
  let w := world_with "/stage/t" "new" in
  let run := move_atomic linux "/stage/t" "/data/f" quiet w in
  is_win32 linux = false
  ∧ names w !! "/stage/t" = Some 0%nat
  ∧ fst run = Ok tt
  ∧ read_path (snd run) "/data/f" = Some "new"
  ∧ names (snd run) !! "/stage/t" = None.
Proof.
  intros w run.
  assert (Hplat : is_win32 linux = false) by reflexivity.
  assert (Hsrc : names w !! "/stage/t" = Some 0%nat) by reflexivity.
  assert (Hok : fst run = Ok tt) by (vm_compute; reflexivity).
  destruct (X3_move_atomic_posix_effect linux "/stage/t" "/data/f" 0 quiet w
              (fst run) (snd run) Hplat Hsrc (surjective_pairing run))
    as (_ & _ & _ & Hdone).
  destruct Hdone as (_ & Hread & Hgone); [by rewrite Hok|].
  repeat split; done.
Defined.

(** X4.  Off win32, with a source that does not exist both primitives stop
    at their first call: [replace_atomic] issues the rename only and
    [move_atomic] the link only, the call fails (with ENOENT unless the
    environment fails it otherwise), no directory is synced and nothing
    changes. *)
Theorem X4_posix_missing_source plat src dst en w :
  is_win32 plat = false →
  names w !! src = None →
  (∀ r w', replace_atomic plat src dst en w = (r, w') →
     is_ok r = false ∧ names w' = names w ∧ inodes w' = inodes w
     ∧ trace w' = trace w ++ [(Ev_rename src dst, false)]
     ∧ (faults en (clock w) = None → r = Raise (OSError ENOENT)))
  ∧ (∀ r w', move_atomic plat src dst en w = (r, w') →
     is_ok r = false ∧ names w' = names w ∧ inodes w' = inodes w
     ∧ trace w' = trace w ++ [(Ev_link src dst, false)]
     ∧ (faults en (clock w) = None → r = Raise (OSError ENOENT))).
Proof.
  intros Hplat Hsrc. split; intros r w' Hrun; unfold_posix;
    rewrite Hplat in Hrun; simpl in Hrun; rewrite Hsrc in Hrun;
    destruct (faults en (clock w)); simplify_eq/=; done.
Qed.

Lemma X4_posix_missing_source_witness :
  is_win32 linux = false
  ∧ names empty_world !! "/d/t" = None
  ∧ replace_atomic linux "/d/t" "/d/f" quiet empty_world
    = (Raise (OSError ENOENT), log (Ev_rename "/d/t" "/d/f") false empty_world)
  ∧ fst (move_atomic linux "/d/t" "/d/f" quiet empty_world)
    = Raise (OSError ENOENT).
Proof.
  assert (Hplat : is_win32 linux = false) by reflexivity.
  assert (Hsrc : names empty_world !! "/d/t" = None) by reflexivity.
  destruct (X4_posix_missing_source linux "/d/t" "/d/f" quiet empty_world
              Hplat Hsrc) as [Hrep Hmov].
  split; [exact Hplat|]. split; [exact Hsrc|]. split; [reflexivity|].
  destruct (Hmov _ _ (surjective_pairing _)) as (_ & _ & _ & _ & He).
  by apply He.
Defined.

(** ** The win32 primitives *)

(** X5.  On win32, [replace_atomic] of an existing source is all or nothing:
    when it returns, the destination entry names the source's file (it reads
    as the source did) and the source entry is gone; when it raises, the
    directory is as it was and the exception is the [WindowsError] of the
    last error code.  No other entry and no content changes. *)
Theorem X5_replace_atomic_win32_all_or_nothing plat src dst i en w r w' :
  is_win32 plat = true →
  names w !! src = Some i →
  replace_atomic plat src dst en w = (r, w') →
  inodes w' = inodes w
  ∧ match r with
    | Ok _ =>
        names w' = <[dst := i]> (delete src (names w))
        ∧ read_path w' dst = read_path w src
    | Raise e => names w' = names w ∧ e = WindowsError (last_error w')
    end
  ∧ (∀ p, p ≠ src → p ≠ dst → read_path w' p = read_path w p).
Proof.
  intros Hplat Hsrc. unfold replace_atomic, _replace_atomic.
  rewrite Hplat. simpl. unfold Win32._replace_atomic, bind.
  destruct (Win32._rename plat src dst en w) as [r1 w1] eqn:Hrn.
  eapply rename_spec in Hrn as (rv & -> & (Hi & _) & Hmv); [|done].
  destruct (Win32._handle_errors rv en w1) as [r2 w2] eqn:Hh.
  apply handle_errors_true in Hh as [-> [[-> Ht]|[-> Ht]]]; intros [= <- <-].
  - destruct Hmv as [[_ Hn]|[-> _]]; [|done].
    split; [done|]. split; [split; [done|]|].
    + unfold read_path. by rewrite Hn, Hi, Hsrc, lookup_insert_eq.
    + intros p Hps Hpd. unfold read_path.
      by rewrite Hn, Hi, lookup_insert_ne, lookup_delete_ne.
  - destruct Hmv as [[Ht' _]|[_ Hn]]; [congruence|].
    split; [done|]. split; [done|].
    intros p _ _. unfold read_path. by rewrite Hn, Hi.
Qed.

Lemma X5_replace_atomic_win32_all_or_nothing_witness :
  let w := World {[ "/d/t" := 1%nat; "/d/f" := 0%nat ]}
                 {[ 0%nat := "old"; 1%nat := "new" ]} 2 ∅ 3 ∅ 0 [] in
  let run := replace_atomic windows "/d/t" "/d/f"
               (failing (fault_at 2 ERROR_SHARING_VIOLATION)) w in
  is_win32 windows = true
  ∧ names w !! "/d/t" = Some 1%nat
  ∧ fst run = Ok tt
  ∧ read_path (snd run) "/d/f" = Some "new"
  ∧ names (snd run) !! "/d/t" = None.
Proof.
  intros w run.
  assert (Hplat : is_win32 windows = true) by reflexivity.
  assert (Hsrc : names w !! "/d/t" = Some 1%nat) by reflexivity.
  assert (Hok : fst run = Ok tt) by (vm_compute; reflexivity).
  destruct (X5_replace_atomic_win32_all_or_nothing windows "/d/t" "/d/f" 1
              (failing (fault_at 2 ERROR_SHARING_VIOLATION)) w
              (fst run) (snd run) Hplat Hsrc (surjective_pairing run))
    as (_ & H & _).
  rewrite Hok in H. destruct H as [Hn Hread].
  split; [exact Hplat|]. split; [exact Hsrc|]. split; [exact Hok|].
  split; [exact Hread|]. rewrite Hn. reflexivity.
Defined.

(** X6.  On win32, [move_atomic] is one [MoveFileExW] call with the
    write-through flag and without the replace flag.  When it returns, the
    destination was absent, now names the source's file, and the source
    entry is gone; when it raises, nothing has changed and the exception is
    the [WindowsError] of the last error code, which is "already exists"
    when the destination exists and the environment does not fail the call
    otherwise. *)
Theorem X6_move_atomic_win32_single_call plat src dst i en w r w' :
  is_win32 plat = true →
  names w !! src = Some i →
  move_atomic plat src dst en w = (r, w') →
  trace w' = trace w ++ [(Ev_MoveFileEx src dst _MOVEFILE_WRITE_THROUGH, is_ok r)]
  ∧ Z.land _MOVEFILE_WRITE_THROUGH _MOVEFILE_REPLACE_EXISTING = 0
  ∧ inodes w' = inodes w
  ∧ match r with
    | Ok _ =>
        names w !! dst = None
        ∧ names w' = <[dst := i]> (delete src (names w))
    | Raise e =>
        names w' = names w ∧ e = WindowsError (last_error w')
        ∧ (is_Some (names w !! dst) → faults en (clock w) = None →
           e = WindowsError ERROR_ALREADY_EXISTS)
    end.
Proof.
  intros Hplat Hsrc. unfold move_atomic, _move_atomic.
  rewrite Hplat. simpl.
  unfold Win32._move_atomic, Win32._handle_errors, WinError, bind, ret, raise,
    MoveFileExW, win_call, sem_MoveFileEx, move_check, apply_move,
    _path_to_unicode, _windows_default_flags.
  rewrite Hsrc.
  repeat (case_match; simplify_eq/=); intros; simplify_eq/=;
    repeat split; try done; try (by intros [? [=]]).
Qed.

Lemma X6_move_atomic_win32_single_call_witness :
  let w := World {[ "/d/t" := 1%nat; "/d/f" := 0%nat ]}
                 {[ 0%nat := "old"; 1%nat := "new" ]} 2 ∅ 3 ∅ 0 [] in
  let run := move_atomic windows "/d/t" "/d/f" quiet w in
  is_win32 windows = true
  ∧ names w !! "/d/t" = Some 1%nat
  ∧ fst run = Raise (WindowsError ERROR_ALREADY_EXISTS)
  ∧ names (snd run) = names w.
Proof.
  intros w run.
  assert (Hplat : is_win32 windows = true) by reflexivity.
  assert (Hsrc : names w !! "/d/t" = Some 1%nat) by reflexivity.
  assert (Hr : fst run = Raise (WindowsError ERROR_ALREADY_EXISTS))
    by (vm_compute; reflexivity).
  destruct (X6_move_atomic_win32_single_call windows "/d/t" "/d/f" 1 quiet w
              (fst run) (snd run) Hplat Hsrc (surjective_pairing run))
    as (_ & _ & _ & H).
  rewrite Hr in H. destruct H as (Hn & _).
  repeat split; done.
Defined.

(** ** The calls of the win32 retry loops *)

Lemma count_calls_nil P : count_calls P [] = 0%nat.
Proof. reflexivity. Qed.

Lemma count_calls_cons P c l :
  count_calls P (c :: l) = ((if P c then 1 else 0) + count_calls P l)%nat.
Proof.
  unfold count_calls. rewrite filter_cons.
  destruct (P c); case_decide; simplify_eq/=; done.
Qed.

Lemma count_calls_app P l1 l2 :
  count_calls P (l1 ++ l2) = (count_calls P l1 + count_calls P l2)%nat.
Proof. unfold count_calls. by rewrite filter_app, length_app. Qed.

Lemma new_calls_app w w' new :
  trace w' = trace w ++ new → new_calls w w' = new.
Proof. unfold new_calls, clock. intros ->. by rewrite drop_app_length. Qed.

Lemma MoveFileExW_calls src dst flags en w r w' :
  MoveFileExW src dst flags en w = (r, w') →
  ∃ rv, r = Ok rv
    ∧ trace w' = trace w ++ [(Ev_MoveFileEx src dst flags, Win32.truthy rv)]
    ∧ fds w' = fds w.
Proof.
  unfold MoveFileExW, win_call, sem_MoveFileEx, apply_move.
  repeat (case_match; simplify_eq/=); intros; simplify_eq/=;
    eexists; (split; [done|]); done.
Qed.

Lemma rename_loop_calls src dst fuel : ∀ retry en w r w',
  Win32._rename_loop fuel src dst retry 0 en w = (r, w') →
  ∃ rv new, r = Ok rv
    ∧ trace w' = trace w ++ new
    ∧ fds w' = fds w
    ∧ Z.of_nat (count_calls plain_move_call new) ≤ Z.max 0 (100 - retry)
    ∧ (count_calls sleep_call new ≤ count_calls plain_move_call new)%nat
    ∧ count_calls transacted_move_call new = 0%nat
    ∧ (Win32.truthy rv = false → 100 - retry ≤ Z.of_nat fuel →
       Z.of_nat (count_calls plain_move_call new) = Z.max 0 (100 - retry)).
Proof.
  induction fuel as [|fuel IH]; intros retry en w r w'; simpl.
  - intros [= <- <-]. exists 0, []. rewrite app_nil_r.
    repeat split; try done; unfold count_calls; simpl; lia.
  - destruct (retry <? 100) eqn:Hlt.
    2:{ apply Z.ltb_ge in Hlt. intros [= <- <-]. exists 0, [].
        rewrite app_nil_r.
        repeat split; try done; unfold count_calls; simpl; lia. }
    apply Z.ltb_lt in Hlt.
    unfold bind at 1.
    destruct (MoveFileExW _ _ _ en w) as [r1 w1] eqn:Hmv.
    apply MoveFileExW_calls in Hmv as (rv1 & -> & Htr & Hfds).
    destruct (Win32.truthy rv1) eqn:Ht; simpl.
    + rewrite rename_loop_truthy by done.
      intros [= <- <-]. eexists rv1, [_]. split; [done|].
      split; [exact Htr|]. split; [done|].
      rewrite !count_calls_cons. unfold count_calls. simpl.
      repeat split; try lia. congruence.
    + apply truthy_false in Ht as ->.
      unfold bind, time_sleep. intros Hrun.
      apply IH in Hrun as (rv & new & -> & Htr2 & Hfds2 & Hb & Hs & Ht0 & Hex).
      simpl in Htr2, Hfds2.
      exists rv, ((Ev_MoveFileEx (_path_to_unicode src) (_path_to_unicode dst)
                    (Z.lor _windows_default_flags _MOVEFILE_REPLACE_EXISTING),
                   Win32.truthy 0)
                  :: (Ev_sleep 1000, true) :: new).
      split; [done|].
      split; [by rewrite Htr2, Htr, <- !app_assoc|].
      split; [congruence|].
      rewrite !count_calls_cons. simpl.
      repeat split; try lia.
      intros Hf Hfuel. specialize (Hex Hf). lia.
Qed.

Lemma MoveFileTransacted_calls src dst flags ta en w r w' :
  _MoveFileTransacted src dst flags ta en w = (r, w') →
  ∃ rv, r = Ok rv
    ∧ trace w' = trace w
                 ++ [(Ev_MoveFileTransacted src dst flags ta, Win32.truthy rv)]
    ∧ (is_Some (lookup_txn ta w) → is_Some (lookup_txn ta w'))
    ∧ (∀ k, k ≠ Z.to_nat ta → fds w' !! k = fds w !! k).
Proof.
  unfold _MoveFileTransacted, win_call, sem_MoveFileTransacted, lookup_txn.
  repeat (case_match; simplify_eq/=); intros; simplify_eq/=;
    eexists; (split; [done|]); (split; [done|]);
    (split; [intros ?|intros k Hk]); simplify_map_eq/=; eauto.
Qed.

Lemma CommitTransaction_calls ta en w r w' :
  _CommitTransaction ta en w = (r, w') →
  ∃ rv, r = Ok rv
    ∧ trace w' = trace w ++ [(Ev_CommitTransaction ta, Win32.truthy rv)]
    ∧ (is_Some (lookup_txn ta w) → is_Some (lookup_txn ta w'))
    ∧ (∀ k, k ≠ Z.to_nat ta → fds w' !! k = fds w !! k).
Proof.
  unfold _CommitTransaction, win_call, sem_CommitTransaction, lookup_txn,
    apply_move.
  repeat (case_match; simplify_eq/=); intros; simplify_eq/=;
    eexists; (split; [done|]); (split; [done|]);
    (split; [intros ?|intros k Hk]); simplify_map_eq/=; eauto.
Qed.

Lemma CloseHandle_calls ta en w r w' :
  _CloseHandle ta en w = (r, w') →
  ∃ rv, r = Ok rv
    ∧ trace w' = trace w ++ [(Ev_CloseHandle ta, Win32.truthy rv)]
    ∧ (Win32.truthy rv = true → fds w' !! Z.to_nat ta = None)
    ∧ (is_Some (lookup_txn ta w) → faults en (clock w) = None →
       Win32.truthy rv = true)
    ∧ (∀ k, k ≠ Z.to_nat ta → fds w' !! k = fds w !! k).
Proof.
  unfold _CloseHandle, win_call, sem_CloseHandle, lookup_txn.
  repeat (case_match; simplify_eq/=); intros; simplify_eq/=;
    eexists; (split; [done|]); (split; [done|]);
    (split; [intros ?|split; [intros [? ?] ?|intros k Hk]]);
    simplify_map_eq/=; eauto.
Qed.

Lemma rename_atomic_loop_calls src dst ta fuel : ∀ retry en w r w',
  is_Some (lookup_txn ta w) →
  Win32._rename_atomic_loop fuel src dst ta retry 0 en w = (r, w') →
  ∃ rv mid, r = Ok rv
    ∧ trace w' = trace w ++ mid
    ∧ is_Some (lookup_txn ta w')
    ∧ (∀ k, k ≠ Z.to_nat ta → fds w' !! k = fds w !! k)
    ∧ Forall (λ c, transaction_step ta c = true) mid
    ∧ Z.of_nat (count_calls transacted_move_call mid) ≤ Z.max 0 (100 - retry)
    ∧ (count_calls sleep_call mid ≤ count_calls transacted_move_call mid)%nat
    ∧ count_calls plain_move_call mid = 0%nat.
Proof.
  induction fuel as [|fuel IH]; intros retry en w r w' Hta; simpl.
  - intros [= <- <-]. exists 0, []. rewrite app_nil_r.
    repeat split; try done; unfold count_calls; simpl; lia.
  - destruct (retry <? 100) eqn:Hlt.
    2:{ intros [= <- <-]. exists 0, []. rewrite app_nil_r.
        repeat split; try done; unfold count_calls; simpl; lia. }
    apply Z.ltb_lt in Hlt.
    unfold bind at 1.
    destruct (_MoveFileTransacted _ _ _ _ en w) as [r1 w1] eqn:Hmv.
    apply MoveFileTransacted_calls in Hmv as (rv1 & -> & Htr & Hta1 & Hfds).
    specialize (Hta1 Hta).
    assert (Hself : (ta =? ta) = true) by apply Z.eqb_refl.
    destruct (Win32.truthy rv1) eqn:Ht.
    + intros Hc.
      apply CommitTransaction_calls in Hc as (rv & -> & Htr2 & Hta2 & Hfds2).
      eexists rv, [_; _]. split; [done|].
      split; [by rewrite Htr2, Htr, <- app_assoc|].
      split; [by apply Hta2|].
      split; [intros k Hk; by rewrite Hfds2, Hfds|].
      split; [repeat constructor; done|].
      rewrite !count_calls_cons. unfold count_calls. simpl.
      repeat split; lia.
    + apply truthy_false in Ht as ->.
      unfold bind, time_sleep. intros Hrun.
      apply IH in Hrun
        as (rv & mid & -> & Htr2 & Hta2 & Hfds2 & Hall & Hb & Hs & Hp);
        [|done].
      simpl in Htr2, Hfds2.
      eexists rv, (_ :: (Ev_sleep 1000, true) :: mid).
      split; [done|].
      split; [rewrite Htr2, Htr, <- !app_assoc; reflexivity|].
      split; [done|].
      split; [intros k Hk; by rewrite Hfds2, Hfds|].
      split; [repeat constructor; done|].
      rewrite !count_calls_cons. simpl.
      repeat split; lia.
Qed.

Lemma rename_atomic_calls plat src dst en w r w' :
  Win32._rename_atomic plat src dst en w = (r, w') →
  ∃ rv new, r = Ok rv
    ∧ trace w' = trace w ++ new
    ∧ (∀ k, k ≠ next_fd w → fds w' !! k = fds w !! k)
    ∧ (count_calls transacted_move_call new ≤ 100)%nat
    ∧ (count_calls sleep_call new ≤ count_calls transacted_move_call new)%nat
    ∧ count_calls plain_move_call new = 0%nat
    ∧ (if transactional_ntfs_supported plat then
         (rv = 0 ∧ new = [(Ev_CreateTransaction, false)])
         ∨ ∃ mid closed,
             new = (Ev_CreateTransaction, true) :: mid
                   ++ [(Ev_CloseHandle (Z.of_nat (next_fd w)), closed)]
             ∧ Forall (λ c, transaction_step (Z.of_nat (next_fd w)) c = true) mid
             ∧ (closed = true → fds w' !! next_fd w = None)
             ∧ (faults en (pred (clock w')) = None → closed = true)
       else rv = 0 ∧ w' = w).
Proof.
  unfold Win32._rename_atomic.
  destruct (transactional_ntfs_supported plat); cbn [negb].
  2:{ intros [= <- <-]. exists 0, []. rewrite app_nil_r.
      repeat split; try done; unfold count_calls; simpl; lia. }
  unfold bind at 1, _CreateTransaction, alloc_fd.
  destruct (faults en (clock w)) eqn:Hf.
  { change (-1 =? -1) with true. cbv iota beta. intros [= <- <-].
    exists 0, [(Ev_CreateTransaction, false)].
    repeat split; try done; try (unfold count_calls; simpl; lia).
    by left. }
  destruct (Z.of_nat (next_fd w) =? -1) eqn:Hneg; [apply Z.eqb_eq in Hneg; lia|].
  unfold try_finally.
  destruct (Win32._rename_atomic_loop _ _ _ _ _ _ _ _) as [r1 w1] eqn:Hloop.
  apply rename_atomic_loop_calls in Hloop
    as (rv & mid & -> & Htr & Hta & Hfds & Hall & Hb & Hs & Hp).
  2:{ unfold lookup_txn. simpl.
      destruct (Z.of_nat (next_fd w) <? 0) eqn:Hlt; [apply Z.ltb_lt in Hlt; lia|].
      rewrite Nat2Z.id, lookup_insert_eq. by eexists. }
  simpl in Htr. rewrite Nat2Z.id in Hfds. simpl in Hfds.
  unfold bind, ret.
  destruct (_CloseHandle _ en w1) as [r2 w2] eqn:Hcl.
  apply CloseHandle_calls in Hcl as (rvc & -> & Htr2 & Hclosed & Hnofault & Hfds2).
  rewrite Nat2Z.id in Hclosed, Hfds2.
  intros [= <- <-].
  exists rv, ((Ev_CreateTransaction, true) :: mid
              ++ [(Ev_CloseHandle (Z.of_nat (next_fd w)), Win32.truthy rvc)]).
  split; [done|].
  split; [rewrite Htr2, Htr, <- !app_assoc; reflexivity|].
  split.
  { intros k Hk. rewrite Hfds2, Hfds by done. by rewrite lookup_insert_ne. }
  rewrite !count_calls_cons, !count_calls_app, !count_calls_cons,
    !count_calls_nil.
  simpl.
  split; [lia|]. split; [lia|]. split; [lia|].
  right. exists mid, (Win32.truthy rvc).
  split; [done|]. split; [done|]. split; [done|].
  intros Hq. apply Hnofault; [done|].
  unfold clock in *. rewrite Htr2, length_app in Hq. simpl in Hq.
  by rewrite Nat.add_1_r in Hq.
Qed.

(** X7.  [_rename] never raises and its retries are bounded: a run makes at
    most 100 transacted moves and at most 100 [MoveFileExW] calls, sleeps at
    most once per failed attempt, and reports failure only after exactly 100
    [MoveFileExW] attempts. *)
Theorem X7_rename_attempts_bounded plat src dst en w r w' :
  Win32._rename plat src dst en w = (r, w') →
  ∃ rv, r = Ok rv
    ∧ (count_calls transacted_move_call (new_calls w w') ≤ 100)%nat
    ∧ (count_calls plain_move_call (new_calls w w') ≤ 100)%nat
    ∧ (count_calls sleep_call (new_calls w w')
       ≤ count_calls transacted_move_call (new_calls w w')
         + count_calls plain_move_call (new_calls w w'))%nat
    ∧ (Win32.truthy rv = false →
       count_calls plain_move_call (new_calls w w') = 100%nat).
Proof.
  unfold Win32._rename, bind.
  destruct (Win32._rename_atomic plat src dst en w) as [r1 w1] eqn:Hat.
  apply rename_atomic_calls in Hat
    as (rv1 & new1 & -> & Htr1 & _ & Hb1 & Hs1 & Hp1 & _).
  destruct (Win32.truthy rv1) eqn:Ht.
  - intros [= <- <-]. exists 1. split; [done|].
    rewrite (new_calls_app _ _ _ Htr1).
    repeat split; try lia. done.
  - intros Hrun.
    apply rename_loop_calls in Hrun
      as (rv & new2 & -> & Htr2 & _ & Hb2 & Hs2 & Ht2 & Hex).
    exists rv. split; [done|].
    rewrite (new_calls_app w w' (new1 ++ new2))
      by (by rewrite Htr2, Htr1, <- app_assoc).
    rewrite !count_calls_app.
    repeat split; try lia.
    intros Hf. specialize (Hex Hf). lia.
Qed.

Lemma X7_rename_attempts_bounded_witness :
  let w := World {[ "/d/t" := 1%nat; "/d/f" := 0%nat ]}
                 {[ 0%nat := "old"; 1%nat := "new" ]} 2 ∅ 3 ∅ 0 [] in
  let run := Win32._rename windows_no_ktm "/d/t" "/d/f" always_exists w in
  fst run = Ok 0
  ∧ count_calls plain_move_call (new_calls w (snd run)) = 100%nat
  ∧ count_calls sleep_call (new_calls w (snd run)) = 100%nat.
Proof.
  intros w run.
  assert (Hr : fst run = Ok 0) by (vm_compute; reflexivity).
  destruct (X7_rename_attempts_bounded windows_no_ktm "/d/t" "/d/f"
              always_exists w (fst run) (snd run) (surjective_pairing run))
    as (rv & Hrv & _ & _ & _ & Hex).
  rewrite Hr in Hrv. injection Hrv as <-.
  split; [exact Hr|]. split; [by apply Hex|].
  vm_compute. reflexivity.
Defined.

(** X8.  [_rename_atomic] never raises and releases the transaction it
    creates: when transactional NTFS is unsupported it issues no call and
    returns false; when [CreateTransaction] fails it returns false after
    that one call; otherwise every later call is a transacted move or a
    commit on the new handle, or a sleep, and the run ends with
    [CloseHandle] on that handle, after which the handle is gone unless the
    environment fails the close.  No other descriptor is touched. *)
Theorem X8_rename_atomic_releases_transaction plat src dst en w r w' :
  Win32._rename_atomic plat src dst en w = (r, w') →
  ∃ rv, r = Ok rv
    ∧ (∀ k, k ≠ next_fd w → fds w' !! k = fds w !! k)
    ∧ (if transactional_ntfs_supported plat then
         (rv = 0 ∧ new_calls w w' = [(Ev_CreateTransaction, false)])
         ∨ ∃ mid closed,
             new_calls w w'
             = (Ev_CreateTransaction, true) :: mid
               ++ [(Ev_CloseHandle (Z.of_nat (next_fd w)), closed)]
             ∧ Forall (λ c, transaction_step (Z.of_nat (next_fd w)) c = true) mid
             ∧ (closed = true → fds w' !! next_fd w = None)
             ∧ (faults en (pred (clock w')) = None → closed = true)
       else rv = 0 ∧ w' = w).
Proof.
  intros Hrun.
  apply rename_atomic_calls in Hrun
    as (rv & new & -> & Htr & Hfds & _ & _ & _ & Hcases).
  exists rv. split; [done|]. split; [done|].
  by rewrite (new_calls_app _ _ _ Htr).
Qed.

Lemma X8_rename_atomic_releases_transaction_witness :
  let w := World {[ "/d/t" := 1%nat; "/d/f" := 0%nat ]}
                 {[ 0%nat := "old"; 1%nat := "new" ]} 2 ∅ 3 ∅ 0 [] in
  let run := Win32._rename_atomic windows "/d/t" "/d/f"
               (failing (fault_at 1 ERROR_SHARING_VIOLATION)) w in
  (∃ rv, fst run = Ok rv)
  ∧ fds (snd run) = ∅
  ∧ last (trace (snd run)) = Some (Ev_CloseHandle 3, true).
Proof.
  intros w run.
  destruct (X8_rename_atomic_releases_transaction windows "/d/t" "/d/f"
              (failing (fault_at 1 ERROR_SHARING_VIOLATION)) w
              (fst run) (snd run) (surjective_pairing run))
    as (rv & Hrv & _ & _).
  split; [by exists rv|]. split; vm_compute; reflexivity.
Defined.

(** ** The scoped write when nothing fails *)


Section UndisturbedCommit.

Variable en : env.
Hypothesis no_fault : ∀ n, faults en n = None.






End UndisturbedCommit.




(** ** The stream is closed on every exit *)

Lemma f_close_closes f en w r w' :
  f_close f en w = (r, w') →
  bufs w' !! f_fileno f = None
  ∧ ∀ k, k ≠ f_fileno f → bufs w' !! k = bufs w !! k.
Proof.
  unfold f_close, try_finally, f_flush, bind, mark_closed, os_close, os_write,
    os_call, sem_close, sem_write.
  repeat (case_match; simplify_eq/=); intros; simplify_eq/=;
    (split; [|intros k Hk]); by simplify_map_eq/=.
Qed.

Lemma rollback_bufs self f en w r w' :
  try_pass (rollback self f) en w = (r, w') → bufs w' = bufs w.
Proof.
  unfold try_pass, rollback, raise, os_unlink, os_call, sem_unlink.
  repeat (case_match; simplify_eq/=); by intros [= <- <-].
Qed.

(** X10.  Once [get_fileobject] has returned a file object, the stream is
    closed when the scoped write ends, whatever the caller's block does and
    however the run ends: the [with] statement closes it and neither the
    commit nor the rollback reopens it. *)
Theorem X10_stream_closed_on_every_exit plat self (block : pyfile → M unit)
    f en w w1 r w' :
  get_fileobject self (_open_kwargs self) en w = (Ok f, w1) →
  open plat self block en w = (r, w') →
  bufs w' !! f_fileno f = None.
Proof.
  intros Hg. unfold open, _open. rewrite Hg.
  unfold with_file, try_finally.
  destruct ((block f;; sync plat self f;; f_close f;; commit plat self f) en w1)
    as [rb w2].
  destruct (f_close f en w2) as [rc w3] eqn:Hc.
  apply f_close_closes in Hc as [Hcl _].
  destruct rc as [[]|e]; [destruct rb as [[]|eb]|]; simpl.
  - by intros [= <- <-].
  - destruct (try_pass _ en w3) as [r0 w4] eqn:Hrb.
    apply (rollback_bufs self (Some f)) in Hrb. intros [= <- <-].
    by rewrite Hrb.
  - destruct (try_pass _ en w3) as [r0 w4] eqn:Hrb.
    apply (rollback_bufs self (Some f)) in Hrb. intros [= <- <-].
    by rewrite Hrb.
Qed.

Lemma X10_stream_closed_on_every_exit_witness :
  let w := world_with "/data/f.txt" "old" in
  let self := Build_AtomicWriter "/data/f.txt" "w" true ∅ in
  let block := fun f => run_block f [Cwrite "x"; Craise (CallerError "boom")] in
  let got := get_fileobject self ∅ quiet w in
  let run := open linux self block quiet w in
  (∃ f, fst got = Ok f ∧ bufs (snd run) !! f_fileno f = None)
  ∧ fst run = Raise (CallerError "boom").
Proof.
  intros w self block got run.
  assert (Hg : got = (Ok (PyFile "/data/tmpx00000.atm_tmp" 4), snd got))
    by (vm_compute; reflexivity).
  split; [|vm_compute; reflexivity].
  exists (PyFile "/data/tmpx00000.atm_tmp" 4). split; [by rewrite Hg|].
  exact (X10_stream_closed_on_every_exit linux self block _ quiet w (snd got)
           (fst run) (snd run) Hg (surjective_pairing run)).
Defined.

(** ** What the scoped write leaves alone *)

Lemma commit_frame plat self f i en w r w' :
  names w !! f_name f = Some i →
  commit plat self f en w = (r, w') →
  inodes w' = inodes w ∧ next_ino w' = next_ino w ∧ bufs w' = bufs w
  ∧ trace w `prefix_of` trace w'
  ∧ ∀ p, p ≠ f_name f → p ≠ _path self → names w' !! p = names w !! p.
Proof.
  intros Hsrc. unfold commit.
  destruct (_overwrite self); destruct (is_win32 plat) eqn:Hplat; intros Hrun.
  - unfold replace_atomic, _replace_atomic in Hrun.
    rewrite Hplat in Hrun. simpl in Hrun.
    apply (replace_atomic_win32_spec _ _ _ i) in Hrun
      as ((Hi & Hx & Hb & Hp) & Hr); [|done].
    repeat split; try done. intros p ? ?.
    destruct r; rewrite Hr; [|done].
    by rewrite lookup_insert_ne, lookup_delete_ne.
  - destruct (decide (names w !! _path self = Some i)) as [Hd|Hd].
    + unfold_posix. rewrite Hplat in Hrun. simpl in Hrun.
      rewrite Hsrc in Hrun. rewrite bool_decide_eq_true_2 in Hrun by done.
      repeat (case_match; simplify_eq/=); repeat split; try done;
        rewrite <- ?app_assoc; by apply prefix_app_r.
    + apply (replace_atomic_posix_spec _ _ _ i) in Hrun
        as (Hi & Hx & Hb & Hp & Hr); [|done..].
      repeat split; try done. intros p ? ?.
      assert (Hn : names w' = names w
                   ∨ names w' = <[_path self := i]> (delete (f_name f) (names w))).
      { destruct r; [by right|]. destruct Hr as [?|[_ ?]]; auto. }
      destruct Hn as [->| ->]; [done|].
      by rewrite lookup_insert_ne, lookup_delete_ne.
  - unfold move_atomic, _move_atomic in Hrun.
    rewrite Hplat in Hrun. simpl in Hrun.
    apply (move_atomic_win32_spec _ _ _ i) in Hrun
      as ((Hi & Hx & Hb & Hp) & Hr); [|done].
    repeat split; try done. intros p ? ?.
    destruct r as [|e0].
    + destruct Hr as [_ ->]. by rewrite lookup_insert_ne, lookup_delete_ne.
    + by destruct Hr as [-> _].
  - apply (move_atomic_posix_spec _ _ _ i) in Hrun
      as (Hi & Hx & Hb & Hp & Hr); [|done..].
    repeat split; try done. intros p ? ?.
    destruct r.
    + destruct Hr as [_ ->]. by rewrite lookup_delete_ne, lookup_insert_ne.
    + destruct Hr as [[-> _]|(_ & _ & [->| ->])]; [done|..];
        by rewrite ?lookup_delete_ne, lookup_insert_ne.
Qed.


Lemma bind_assoc4_raise (a b c d : M unit) en w e w3 :
  (a ;; b ;; c) en w = (Raise e, w3) →
  (a ;; b ;; c ;; d) en w = (Raise e, w3).
Proof.
  unfold bind.
  destruct (a en w) as [[[]|?] w1]; [|done].
  destruct (b en w1) as [[[]|?] w2]; [|done].
  destruct (c en w2) as [[[]|?] w3']; done.
Qed.





(** ** The order of the calls of the scoped write *)

Lemma mkstemp_inner_calls tries dir pre suf : ∀ en w r w',
  mkstemp_inner tries dir pre suf en w = (r, w') →
  ∃ new, trace w' = trace w ++ new
         ∧ Forall (λ c, directory_move c = false) new.
Proof.
  induction tries as [|tries IH]; intros en w r w'; simpl.
  - intros [= <- <-]. exists []. by rewrite app_nil_r.
  - destruct (os_open_excl _ en w) as [r1 w1] eqn:Hop.
    assert (Htr : trace w1 = trace w ++ [(Ev_open_excl
              (path_join dir (pre +:+ tmp_names en (clock w) +:+ suf)), is_ok r1)]).
    { revert Hop. unfold os_open_excl, os_call, sem_open_excl, create_inode,
        alloc_fd.
      repeat (case_match; simplify_eq/=); by intros [= <- <-]. }
    destruct r1 as [fd|e].
    + intros [= <- <-]. eexists. split; [exact Htr|]. by repeat constructor.
    + case_bool_decide.
      * intros Hrun. apply IH in Hrun as (new & Htr2 & Hall).
        eexists (_ :: new). split; [by rewrite Htr2, Htr, <- app_assoc|].
        by constructor.
      * intros [= <- <-]. eexists. split; [exact Htr|]. by repeat constructor.
Qed.

Lemma io_open_calls kwargs en w r w' :
  io_open kwargs en w = (r, w') →
  ∃ new, trace w' = trace w ++ new
         ∧ Forall (λ c, directory_move c = false) new.
Proof.
  unfold io_open, raise, bind, os_open_trunc, os_call, sem_open_trunc,
    create_inode, alloc_fd.
  repeat (case_match; simplify_eq/=); intros; simplify_eq/=;
    try (exists []; by rewrite app_nil_r);
    (eexists [_]; split; [done|by repeat constructor]).
Qed.

Lemma get_fileobject_calls self kw en w r w' :
  get_fileobject self kw en w = (r, w') →
  ∃ new, trace w' = trace w ++ new
         ∧ Forall (λ c, directory_move c = false) new.
Proof.
  unfold get_fileobject, mkstemp, bind.
  destruct (mkstemp_inner _ _ _ _ en w) as [[[fd name]|e] w1] eqn:Hmk;
    apply mkstemp_inner_calls in Hmk as (new1 & Htr1 & Hall1).
  2:{ intros [= <- <-]. eauto. }
  destruct (os_close fd en w1) as [rc w2] eqn:Hcl.
  apply os_close_spec in Hcl as (_ & _ & _ & _ & Htr2 & _).
  destruct rc as [[]|e].
  2:{ intros [= <- <-]. eexists (new1 ++ [_]).
      split; [by rewrite Htr2, Htr1, <- app_assoc|].
      apply Forall_app. split; [done|by repeat constructor]. }
  intros Hio. apply io_open_calls in Hio as (new3 & Htr3 & Hall3).
  eexists (new1 ++ [_] ++ new3).
  split; [by rewrite Htr3, Htr2, Htr1, <- !app_assoc|].
  apply Forall_app. split; [done|].
  apply Forall_app. split; [by repeat constructor|done].
Qed.

Lemma f_flush_calls f en w r w' :
  f_flush f en w = (r, w') →
  (∃ new, trace w' = trace w ++ new
          ∧ Forall (λ c, directory_move c = false) new)
  ∧ (is_ok r = true → bufs w' !! f_fileno f = Some "")
  ∧ (bufs w !! f_fileno f = Some "" → r = Ok tt ∧ w' = w).
Proof.
  unfold f_flush.
  destruct (bufs w !! f_fileno f) as [b|] eqn:Hb.
  2:{ intros [= <- <-]. split; [exists []; by rewrite app_nil_r|done]. }
  case_bool_decide as Hemp.
  { subst b. intros [= <- <-]. split; [exists []; by rewrite app_nil_r|done]. }
  destruct (os_write (f_fileno f) b en w) as [r1 w1] eqn:Hw.
  assert (Htr : trace w1 = trace w ++ [(Ev_write (f_fileno f) b, is_ok r1)]).
  { revert Hw. unfold os_write, os_call, sem_write.
    repeat (case_match; simplify_eq/=); by intros [= <- <-]. }
  assert (Hnew : ∃ new, trace w1 = trace w ++ new
                        ∧ Forall (λ c, directory_move c = false) new).
  { eexists. split; [exact Htr|]. by repeat constructor. }
  destruct r1 as [[]|e]; intros [= <- <-].
  - split; [done|]. split; [intros _; simpl; by rewrite lookup_insert_eq|].
    by intros [= ->].
  - split; [done|]. split; [done|]. by intros [= ->].
Qed.

Lemma f_close_calls f en w r w' :
  f_close f en w = (r, w') →
  (∃ new, trace w' = trace w ++ new
          ∧ Forall (λ c, directory_move c = false) new)
  ∧ (bufs w !! f_fileno f = Some "" →
     trace w' = trace w ++ [(Ev_close (f_fileno f), is_ok r)]).
Proof.
  unfold f_close.
  destruct (bufs w !! f_fileno f) as [b|] eqn:Hb.
  2:{ intros [= <- <-]. split; [|done]. exists []. by rewrite app_nil_r. }
  unfold try_finally.
  destruct (f_flush f en w) as [r1 w1] eqn:Hfl.
  apply f_flush_calls in Hfl as ((new1 & Htr1 & Hall1) & _ & Hempty).
  unfold bind, mark_closed.
  destruct (os_close _ en _) as [rc w2] eqn:Hcl.
  apply os_close_spec in Hcl as (_ & _ & _ & _ & Htr2 & _).
  simpl in Htr2.
  assert (Hnew : ∃ new, trace w2 = trace w ++ new
                        ∧ Forall (λ c, directory_move c = false) new).
  { eexists (new1 ++ [_]). split; [by rewrite Htr2, Htr1, <- app_assoc|].
    apply Forall_app. split; [done|by repeat constructor]. }
  destruct rc as [[]|e]; intros [= <- <-].
  - split; [done|].
    intros [= ->]. destruct (Hempty Hb) as [-> ->]. exact Htr2.
  - split; [done|].
    intros [= ->]. destruct (Hempty Hb) as [_ ->]. exact Htr2.
Qed.

Lemma run_block_calls f block : ∀ en w r w',
  run_block f block en w = (r, w') →
  ∃ new, trace w' = trace w ++ new
         ∧ Forall (λ c, directory_move c = false) new.
Proof.
  induction block as [|c block IH]; intros en w r w'; simpl.
  - intros [= <- <-]. exists []. by rewrite app_nil_r.
  - assert (Hstep : ∀ (m : M unit),
      (∀ r1 w1, m en w = (r1, w1) →
         ∃ new, trace w1 = trace w ++ new
                ∧ Forall (λ c, directory_move c = false) new) →
      (m ;; run_block f block) en w = (r, w') →
      ∃ new, trace w' = trace w ++ new
             ∧ Forall (λ c, directory_move c = false) new).
    { intros m Hm. unfold bind.
      destruct (m en w) as [r1 w1] eqn:H1.
      destruct (Hm _ _ eq_refl) as (new1 & Htr1 & Hall1).
      destruct r1 as [[]|e].
      - intros Hrun. apply IH in Hrun as (new2 & Htr2 & Hall2).
        exists (new1 ++ new2). split; [by rewrite Htr2, Htr1, <- app_assoc|].
        by apply Forall_app.
      - intros [= <- <-]. eauto. }
    destruct c as [x| | |e].
    + apply Hstep. intros r1 w1. unfold f_write.
      case_match; intros [= <- <-]; exists []; by rewrite app_nil_r.
    + apply Hstep. intros r1 w1 H1. by apply f_flush_calls in H1 as [? _].
    + apply Hstep. intros r1 w1 H1. by apply f_close_calls in H1 as [? _].
    + intros [= <- <-]. exists []. by rewrite app_nil_r.
Qed.

Lemma proper_fsync_calls plat fd en w r w' :
  _proper_fsync plat fd en w = (r, w') →
  trace w' = trace w ++ [(proper_fsync_call plat fd, is_ok r)]
  ∧ bufs w' = bufs w.
Proof.
  unfold _proper_fsync, proper_fsync_call, durability_step, os_fsync,
    fcntl_fcntl, os_call, sem_fd_check.
  repeat (case_match; simplify_eq/=); by intros [= <- <-].
Qed.

Lemma sync_calls plat self f en w r w' :
  sync plat self f en w = (r, w') →
  ∃ new, trace w' = trace w ++ new
    ∧ Forall (λ c, directory_move c = false) new
    ∧ (is_ok r = true →
       bufs w' !! f_fileno f = Some ""
       ∧ ∃ new0, new = new0 ++ [(proper_fsync_call plat (f_fileno f), true)]).
Proof.
  unfold sync, bind.
  destruct (f_flush f en w) as [r1 w1] eqn:Hfl.
  apply f_flush_calls in Hfl as ((new1 & Htr1 & Hall1) & Hb1 & _).
  destruct r1 as [[]|e].
  2:{ intros [= <- <-]. exists new1. by repeat split. }
  specialize (Hb1 eq_refl). unfold fileno. rewrite Hb1.
  intros Hps. apply proper_fsync_calls in Hps as [Htr2 Hb2].
  exists (new1 ++ [(proper_fsync_call plat (f_fileno f), is_ok r)]).
  split; [by rewrite Htr2, Htr1, <- app_assoc|].
  split.
  { apply Forall_app. split; [done|]. repeat constructor.
    unfold proper_fsync_call, durability_step. by repeat case_match. }
  intros ->. split; [by rewrite Hb2|]. by exists new1.
Qed.

Lemma stream_phase_calls plat self f block en w r w' :
  (run_block f block ;; sync plat self f ;; f_close f) en w = (r, w') →
  ∃ new, trace w' = trace w ++ new
    ∧ Forall (λ c, directory_move c = false) new
    ∧ (is_ok r = true →
       ∃ new0, new = new0 ++ [(proper_fsync_call plat (f_fileno f), true);
                              (Ev_close (f_fileno f), true)]).
Proof.
  unfold bind.
  destruct (run_block f block en w) as [r1 w1] eqn:H1.
  apply run_block_calls in H1 as (new1 & Htr1 & Hall1).
  destruct r1 as [[]|e1].
  2:{ intros [= <- <-]. exists new1. by repeat split. }
  destruct (sync plat self f en w1) as [r2 w2] eqn:H2.
  apply sync_calls in H2 as (new2 & Htr2 & Hall2 & Hok2).
  destruct r2 as [[]|e2].
  2:{ intros [= <- <-]. exists (new1 ++ new2).
      split; [by rewrite Htr2, Htr1, <- app_assoc|].
      split; [by apply Forall_app|done]. }
  destruct (Hok2 eq_refl) as (Hb2 & new0 & ->).
  intros H3. apply f_close_calls in H3 as [_ Htr3].
  specialize (Htr3 Hb2).
  exists (new1 ++ new0 ++ [(proper_fsync_call plat (f_fileno f), true);
                           (Ev_close (f_fileno f), is_ok r)]).
  split; [by rewrite Htr3, Htr2, Htr1, <- !app_assoc|].
  split.
  { apply Forall_app. split; [done|].
    apply Forall_app in Hall2 as [Hall0 Hps].
    apply Forall_app. split; [done|].
    apply Forall_cons. split; [by apply Forall_inv in Hps|].
    by repeat constructor. }
  intros ->. exists (new1 ++ new0). by rewrite <- app_assoc.
Qed.

Lemma rollback_calls self f en w r w' :
  try_pass (rollback self (Some f)) en w = (r, w') →
  ∃ ok, trace w' = trace w ++ [(Ev_unlink (f_name f), ok)].
Proof.
  unfold try_pass, rollback.
  destruct (os_unlink (f_name f) en w) as [r1 w1] eqn:Hu.
  apply os_unlink_spec in Hu as (_ & _ & Ht & _).
  destruct r1; intros [= <- <-]; eauto.
Qed.

Lemma split_after {A} (l1 l2 before after : list A) c :
  l1 ++ l2 = before ++ c :: after → c ∉ l1 → ∃ mid, before = l1 ++ mid.
Proof.
  revert before. induction l1 as [|x l1 IH]; intros before Heq Hc; simpl in *.
  - by exists before.
  - destruct before as [|y before]; simpl in *.
    + injection Heq as -> _. exfalso. apply Hc. apply elem_of_cons. by left.
    + injection Heq as -> Heq. apply IH in Heq as [mid ->]; [by exists mid|].
      intros ?. apply Hc. apply elem_of_cons. by right.
Qed.

Lemma open_calls plat self block en w r w' :
  open plat self (fun f => run_block f block) en w = (r, w') →
  ∃ pre post, new_calls w w' = pre ++ post
    ∧ Forall (λ c, directory_move c = false) pre
    ∧ (post = []
       ∨ ∃ f w1 pre0,
           get_fileobject self (_open_kwargs self) en w = (Ok f, w1)
           ∧ pre = pre0 ++ [(proper_fsync_call plat (f_fileno f), true);
                            (Ev_close (f_fileno f), true)]).
Proof.
  unfold open, _open.
  destruct (get_fileobject self (_open_kwargs self) en w) as [[f|e] w1] eqn:Hg;
    pose proof Hg as Hg';
    apply get_fileobject_calls in Hg' as (new1 & Htr1 & Hall1).
  2:{ simpl. intros [= <- <-]. exists new1, [].
      rewrite app_nil_r. split; [by apply new_calls_app|]. split; [done|by left]. }
  pose proof Hg as Hg'.
  apply get_fileobject_spec in Hg'
    as (_ & _ & Hfree & Hn1 & Hi1 & _ & Hb1 & Hf1 & _).
  set (i := next_ino w) in *.
  assert (Hinv1 : stream_inv f i "" w1).
  { unfold stream_inv. rewrite Hb1. split; [done|]. by exists "". }
  unfold with_file, try_finally.
  destruct ((run_block f block ;; sync plat self f ;; f_close f) en w1)
    as [[[]|e] w3] eqn:Hph.
  - rewrite (bind_assoc4 _ _ _ _ _ _ _ Hph).
    pose proof Hph as Hph'.
    apply stream_phase_calls in Hph' as (new2 & Htr2 & Hall2 & Hok2).
    destruct (Hok2 eq_refl) as (new0 & ->).
    apply (stream_phase_spec plat self f i) in Hph as ((Hn3 & _) & Hcl3); [|done].
    specialize (Hcl3 eq_refl).
    destruct (commit plat self f en w3) as [rc w4] eqn:Hc.
    apply (commit_frame plat self f i) in Hc as (_ & _ & Hb4 & [k Hk] & _);
      [|by rewrite Hn3, Hn1, lookup_insert_eq].
    rewrite f_close_closed by (by rewrite Hb4).
    assert (Hpre : Forall (λ c, directory_move c = false)
              (new1 ++ new0 ++ [(proper_fsync_call plat (f_fileno f), true);
                                (Ev_close (f_fileno f), true)]))
      by (by apply Forall_app).
    assert (Hright : ∃ f0 w0 pre0,
              (Ok f, w1) = (Ok f0, w0)
              ∧ new1 ++ new0 ++ [(proper_fsync_call plat (f_fileno f), true);
                                 (Ev_close (f_fileno f), true)]
                = pre0 ++ [(proper_fsync_call plat (f_fileno f0), true);
                           (Ev_close (f_fileno f0), true)]).
    { exists f, w1, (new1 ++ new0). split; [done|]. by rewrite <- app_assoc. }
    destruct rc as [[]|ec]; simpl.
    + intros [= <- <-].
      exists (new1 ++ new0 ++ [(proper_fsync_call plat (f_fileno f), true);
                               (Ev_close (f_fileno f), true)]), k.
      split; [apply new_calls_app; by rewrite Hk, Htr2, Htr1, <- !app_assoc|].
      split; [done|by right].
    + destruct (try_pass _ en w4) as [r0 w5] eqn:Hrb.
      apply (rollback_calls self f) in Hrb as [ok Htr5].
      intros [= <- <-].
      exists (new1 ++ new0 ++ [(proper_fsync_call plat (f_fileno f), true);
                               (Ev_close (f_fileno f), true)]),
             (k ++ [(Ev_unlink (f_name f), ok)]).
      split; [apply new_calls_app;
              by rewrite Htr5, Hk, Htr2, Htr1, <- !app_assoc|].
      split; [done|by right].
  - rewrite (bind_assoc4_raise _ _ _ _ _ _ _ _ Hph).
    apply stream_phase_calls in Hph as (new2 & Htr2 & Hall2 & _).
    destruct (f_close f en w3) as [rc w4] eqn:Hc.
    apply f_close_calls in Hc as [(new3 & Htr3 & Hall3) _].
    assert (Hroll : ∀ r0 w5, try_pass (rollback self (Some f)) en w4 = (r0, w5) →
      ∃ pre post, new_calls w w5 = pre ++ post
        ∧ Forall (λ c, directory_move c = false) pre
        ∧ (post = []
           ∨ ∃ f0 w0 pre0, (Ok f, w1) = (Ok f0, w0)
               ∧ pre = pre0 ++ [(proper_fsync_call plat (f_fileno f0), true);
                                (Ev_close (f_fileno f0), true)])).
    { intros r0 w5 Hrb. apply rollback_calls in Hrb as [ok Htr5].
      exists (new1 ++ new2 ++ new3 ++ [(Ev_unlink (f_name f), ok)]), [].
      rewrite app_nil_r.
      split; [apply new_calls_app;
              by rewrite Htr5, Htr3, Htr2, Htr1, <- !app_assoc|].
      split; [|by left].
      repeat (apply Forall_app; split; [done|]). by repeat constructor. }
    destruct rc as [[]|ec]; simpl;
      destruct (try_pass _ en w4) as [r0 w5] eqn:Hrb;
      intros [= <- <-]; by apply (Hroll r0).
Qed.

(** X12.  Durable before visible: in every run of the scoped write, a call
    that gives a directory entry to a file (link, rename, [MoveFileExW],
    [MoveFileTransactedW]) comes only after the temporary file has been
    synced with [_proper_fsync] and its descriptor closed, both with
    success, the close right after the sync, and no such call comes before
    them. *)
Theorem X12_synced_and_closed_before_any_move plat self block en w r w' :
  open plat self (fun f => run_block f block) en w = (r, w') →
  ∀ before c after,
    new_calls w w' = before ++ c :: after →
    directory_move c = true →
    ∃ f w1 pre mid,
      get_fileobject self (_open_kwargs self) en w = (Ok f, w1)
      ∧ before = pre ++ (proper_fsync_call plat (f_fileno f), true)
                     :: (Ev_close (f_fileno f), true) :: mid
      ∧ Forall (λ c, directory_move c = false) pre.
Proof.
  intros Hrun before c after Heq Hc.
  apply open_calls in Hrun as (pre & post & Hnew & Hall & Hpost).
  rewrite Hnew in Heq.
  assert (Hnot : c ∉ pre).
  { intros Hin. rewrite Forall_forall in Hall. apply Hall in Hin. congruence. }
  destruct (split_after _ _ _ _ _ Heq Hnot) as [mid ->].
  destruct Hpost as [->|(f & w1 & pre0 & Hg & ->)].
  { rewrite app_nil_r in Heq. exfalso. apply Hnot. rewrite Heq.
    apply elem_of_app. right. apply elem_of_cons. by left. }
  exists f, w1, pre0, mid. split; [done|].
  split; [by rewrite <- app_assoc|].
  by apply Forall_app in Hall as [? _].
Qed.

Lemma X12_synced_and_closed_before_any_move_witness :
  let w := world_with "/data/f.txt" "old" in
  let self := Build_AtomicWriter "/data/f.txt" "w" true ∅ in
  let run := open darwin self (fun f => run_block f [Cwrite "new"]) quiet w in
  let before :=
    [(Ev_open_excl "/data/tmpx00000.atm_tmp", true); (Ev_close 3, true);
     (Ev_open_trunc "/data/tmpx00000.atm_tmp", true);
     (Ev_write 4 "new", true); (Ev_fcntl 4 51, true); (Ev_close 4, true)] in
  let c := (Ev_rename "/data/tmpx00000.atm_tmp" "/data/f.txt", true) in
  (∃ after, new_calls w (snd run) = before ++ c :: after)
  ∧ directory_move c = true
  ∧ ∃ pre mid,
      before = pre ++ (Ev_fcntl 4 51, true) :: (Ev_close 4, true) :: mid
      ∧ Forall (λ c, directory_move c = false) pre.
Proof.
  intros w self run before c.
  assert (Heq : new_calls w (snd run)
    = before ++ c :: [(Ev_open_dir "/data", true); (Ev_fcntl 5 51, true);
                      (Ev_close 5, true)])
    by (vm_compute; reflexivity).
  assert (Hc : directory_move c = true) by reflexivity.
  split; [by eexists|]. split; [exact Hc|].
  destruct (X12_synced_and_closed_before_any_move darwin self [Cwrite "new"]
              quiet w (fst run) (snd run) (surjective_pairing run) _ _ _ Heq
              Hc) as (f & w1 & pre & mid & Hg & Hbefore & Hall).
  assert (Hf : f = PyFile "/data/tmpx00000.atm_tmp" 4).
  { assert (Hgot : fst (get_fileobject self (_open_kwargs self) quiet w)
                   = Ok (PyFile "/data/tmpx00000.atm_tmp" 4))
      by (vm_compute; reflexivity).
    rewrite Hg in Hgot. simpl in Hgot. by injection Hgot. }
  subst f. exists pre, mid. split; [exact Hbefore|exact Hall].
Defined.

(** ** The temporary file [get_fileobject] returns *)

Lemma mkstemp_inner_ok tries dir pre suf : ∀ en w fd name w',
  mkstemp_inner tries dir pre suf en w = (Ok (fd, name), w') →
  ∃ collisions,
    trace w' = trace w ++ collisions ++ [(Ev_open_excl name, true)]
    ∧ Forall (λ c, ∃ p, c = (Ev_open_excl p, false)) collisions
    ∧ fd = next_fd w ∧ next_fd w' = S (next_fd w)
    ∧ fds w' = <[next_fd w := FdFile (next_ino w)]> (fds w).
Proof.
  induction tries as [|tries IH]; intros en w fd name w'; simpl; [done|].
  unfold os_open_excl, os_call, sem_open_excl, create_inode, alloc_fd.
  set (file := path_join dir (pre +:+ tmp_names en (clock w) +:+ suf)).
  assert (Hrec : mkstemp_inner tries dir pre suf en
                   (log (Ev_open_excl file) false w) = (Ok (fd, name), w') →
    ∃ collisions,
      trace w' = trace w ++ collisions ++ [(Ev_open_excl name, true)]
      ∧ Forall (λ c, ∃ p, c = (Ev_open_excl p, false)) collisions
      ∧ fd = next_fd w ∧ next_fd w' = S (next_fd w)
      ∧ fds w' = <[next_fd w := FdFile (next_ino w)]> (fds w)).
  { intros Hrun. apply IH in Hrun as (col & Htr & Hall & Hfd & Hnx & Hfds).
    simpl in *. exists ((Ev_open_excl file, false) :: col).
    split; [by rewrite Htr, <- !app_assoc|].
    split; [constructor; [by eexists|done]|]. done. }
  destruct (faults en (clock w)) as [z|].
  - case_bool_decide; [|done]. exact Hrec.
  - destruct (names w !! file); simpl.
    + exact Hrec.
    + intros [= <- <- <-]. exists []. simpl. repeat split; done.
Qed.

Lemma get_fileobject_ok self kw en w f w' :
  get_fileobject self kw en w = (Ok f, w') →
  ∃ collisions,
    new_calls w w'
    = collisions ++ [(Ev_open_excl (f_name f), true);
                     (Ev_close (next_fd w), true);
                     (Ev_open_trunc (f_name f), true)]
    ∧ Forall (λ c, ∃ p, c = (Ev_open_excl p, false)) collisions
    ∧ f_fileno f = S (next_fd w)
    ∧ next_fd w' = S (S (next_fd w))
    ∧ fds w' !! next_fd w = None
    ∧ ∀ k, k ≠ next_fd w → k ≠ S (next_fd w) → fds w' !! k = fds w !! k.
Proof.
  unfold get_fileobject, mkstemp, bind.
  destruct (mkstemp_inner _ _ _ _ en w) as [[[fd name]|e] w1] eqn:Hmk; [|done].
  apply mkstemp_inner_ok in Hmk as (col & Htr1 & Hall & -> & Hnx1 & Hfds1).
  destruct (os_close (next_fd w) en w1) as [[[]|e] w2] eqn:Hcl; [|done].
  assert (Hw2 : w2 = log (Ev_close (next_fd w)) true
                       (set_fds (delete (next_fd w) (fds w1)) w1)).
  { revert Hcl. unfold os_close, os_call, sem_close.
    rewrite Hfds1, lookup_insert_eq.
    destruct (faults en (clock w1)); by intros [= <-]. }
  unfold io_open.
  destruct (negb (bool_decide _)); [done|].
  rewrite lookup_insert_eq, lookup_insert_ne, lookup_insert_eq by done.
  destruct (negb (io_mode_valid _)); [done|].
  unfold bind.
  destruct (os_open_trunc name en w2) as [[fd|e] w3] eqn:Hop; [|done].
  assert (Hw3 : fd = S (next_fd w)
                ∧ trace w3 = trace w2 ++ [(Ev_open_trunc name, true)]
                ∧ next_fd w3 = S (S (next_fd w))
                ∧ fds w3 !! next_fd w = None
                ∧ ∀ k, k ≠ next_fd w → k ≠ S (next_fd w) →
                       fds w3 !! k = fds w !! k).
  { revert Hop. subst w2.
    unfold os_open_trunc, os_call, sem_open_trunc, create_inode, alloc_fd.
    repeat (case_match; simplify_eq/=); intros; simplify_eq/=;
      rewrite Hnx1; (split; [done|]); (split; [done|]); (split; [done|]);
      (split; [rewrite lookup_insert_ne by lia; apply lookup_delete_eq|]);
      intros k ? ?;
      rewrite lookup_insert_ne, lookup_delete_ne, Hfds1, lookup_insert_ne
        by done; done. }
  destruct Hw3 as (-> & Htr3 & Hnx3 & Hfd3 & Hoth).
  intros [= <- <-]. simpl. exists col.
  split.
  { apply new_calls_app. simpl. rewrite Htr3, Hw2. simpl.
    by rewrite Htr1, <- !app_assoc. }
  done.
Qed.



(** ** Descriptors *)

Lemma sync_directory_fds plat d en w w' :
  fds_fresh w →
  Posix._sync_directory plat d en w = (Ok tt, w') →
  fds w' = fds w ∧ next_fd w' = S (next_fd w).
Proof.
  intros Hfresh Hrun. unfold_posix.
  repeat (case_match; simplify_eq/=);
    (split; [|done]); rewrite delete_insert_id; try done;
    by apply Hfresh.
Qed.

Lemma commit_posix_fds plat self f en w w' :
  is_win32 plat = false →
  fds_fresh w →
  commit plat self f en w = (Ok tt, w') →
  fds w' = fds w.
Proof.
  intros Hplat Hfresh. unfold commit, replace_atomic, move_atomic,
    _replace_atomic, _move_atomic.
  rewrite Hplat. cbn [negb].
  destruct (_overwrite self).
  - unfold Posix._replace_atomic, bind.
    destruct (os_rename _ _ en w) as [[[]|e] w1] eqn:Hrn; [|done].
    assert (H1 : fds w1 = fds w ∧ next_fd w1 = next_fd w).
    { revert Hrn. unfold os_rename, os_call, sem_rename.
      repeat (case_match; simplify_eq/=); by intros [= <-]. }
    destruct H1 as [Hf1 Hx1]. intros Hsd.
    apply sync_directory_fds in Hsd as [Hf2 _]; [congruence|].
    intros k Hk. rewrite Hf1. apply Hfresh. lia.
  - unfold Posix._move_atomic, bind.
    destruct (os_link _ _ en w) as [[[]|e] w1] eqn:Hln; [|done].
    assert (H1 : fds w1 = fds w ∧ next_fd w1 = next_fd w).
    { revert Hln. unfold os_link, os_call, sem_link.
      repeat (case_match; simplify_eq/=); by intros [= <-]. }
    destruct H1 as [Hf1 Hx1].
    destruct (os_unlink _ en w1) as [[[]|e] w2] eqn:Hul; [|done].
    assert (H2 : fds w2 = fds w1 ∧ next_fd w2 = next_fd w1).
    { revert Hul. unfold os_unlink, os_call, sem_unlink.
      repeat (case_match; simplify_eq/=); by intros [= <-]. }
    destruct H2 as [Hf2 Hx2].
    destruct (Posix._sync_directory plat _ en w2) as [[[]|e] w3] eqn:Hs1;
      [|done].
    apply sync_directory_fds in Hs1 as [Hf3 Hx3].
    2:{ intros k Hk. rewrite Hf2, Hf1. apply Hfresh. lia. }
    case_bool_decide; cbn [negb].
    + intros [= <-]. congruence.
    + intros Hs2. apply sync_directory_fds in Hs2 as [Hf4 _]; [congruence|].
      intros k Hk. rewrite Hf3, Hf2, Hf1. apply Hfresh. lia.
Qed.

Lemma f_flush_fds f en w r w' :
  f_flush f en w = (r, w') →
  fds w' = fds w ∧ next_fd w' = next_fd w
  ∧ (bufs w !! f_fileno f = None → bufs w' !! f_fileno f = None).
Proof.
  unfold f_flush, os_write, os_call, sem_write.
  repeat (case_match; simplify_eq/=); by intros [= <- <-].
Qed.

Lemma f_close_fds f en w r w' :
  f_close f en w = (r, w') →
  next_fd w' = next_fd w
  ∧ (bufs w !! f_fileno f = None → w' = w)
  ∧ (is_ok r = true → is_Some (bufs w !! f_fileno f) →
     fds w' = delete (f_fileno f) (fds w)).
Proof.
  unfold f_close.
  destruct (bufs w !! f_fileno f) as [b|] eqn:Hb.
  2:{ intros [= <- <-]. repeat split; try done; by intros _ [? [=]]. }
  unfold try_finally.
  destruct (f_flush f en w) as [r1 w1] eqn:Hfl.
  apply f_flush_fds in Hfl as (Hf1 & Hx1 & _).
  unfold bind, mark_closed, os_close, os_call, sem_close. simpl.
  repeat (case_match; simplify_eq/=); intros; simplify_eq/=;
    repeat split; try done; congruence.
Qed.

Lemma run_block_fds f block : ∀ en w r w',
  run_block f block en w = (r, w') →
  next_fd w' = next_fd w
  ∧ (bufs w !! f_fileno f = None → bufs w' !! f_fileno f = None)
  ∧ (is_Some (bufs w' !! f_fileno f) → fds w' = fds w).
Proof.
  induction block as [|c block IH]; intros en w r w'; simpl.
  - by intros [= <- <-].
  - assert (Hstep : ∀ (m : M unit),
      (∀ r1 w1, m en w = (r1, w1) →
         next_fd w1 = next_fd w
         ∧ (bufs w !! f_fileno f = None → bufs w1 !! f_fileno f = None)
         ∧ (is_Some (bufs w1 !! f_fileno f) → fds w1 = fds w)) →
      (m ;; run_block f block) en w = (r, w') →
      next_fd w' = next_fd w
      ∧ (bufs w !! f_fileno f = None → bufs w' !! f_fileno f = None)
      ∧ (is_Some (bufs w' !! f_fileno f) → fds w' = fds w)).
    { intros m Hm. unfold bind.
      destruct (m en w) as [r1 w1] eqn:H1.
      destruct (Hm _ _ eq_refl) as (Hx1 & Hc1 & Hf1).
      destruct r1 as [[]|e]; [|by intros [= <- <-]].
      intros Hrun. apply IH in Hrun as (Hx2 & Hc2 & Hf2).
      split; [congruence|]. split; [by auto|].
      intros Hopen. rewrite Hf2 by done. apply Hf1.
      destruct (bufs w1 !! f_fileno f) eqn:Hb1; [by eexists|].
      rewrite Hc2 in Hopen by done. by destruct Hopen. }
    destruct c as [x| | |e].
    + apply Hstep. intros r1 w1. unfold f_write.
      case_match eqn:Hb; intros [= <- <-]; simpl; [|by rewrite Hb].
      split; [done|]. split; [congruence|done].
    + apply Hstep. intros r1 w1 H1.
      apply f_flush_fds in H1 as (? & ? & ?). by repeat split.
    + apply Hstep. intros r1 w1 H1. pose proof H1 as H1'.
      apply f_close_closes in H1' as [Hcl _].
      apply f_close_fds in H1 as (? & ? & ?).
      split; [done|]. split; [done|]. rewrite Hcl. by intros [? [=]].
    + by intros [= <- <-].
Qed.

Lemma stream_phase_fds plat self f block en w w' :
  (run_block f block ;; sync plat self f ;; f_close f) en w = (Ok tt, w') →
  next_fd w' = next_fd w
  ∧ fds w' = delete (f_fileno f) (fds w)
  ∧ bufs w' !! f_fileno f = None.
Proof.
  unfold bind.
  destruct (run_block f block en w) as [[[]|e1] w1] eqn:H1; [|done].
  apply run_block_fds in H1 as (Hx1 & _ & Hf1).
  destruct (sync plat self f en w1) as [[[]|e2] w2] eqn:H2; [|done].
  assert (Hs : next_fd w2 = next_fd w1 ∧ fds w2 = fds w1
               ∧ is_Some (bufs w1 !! f_fileno f)
               ∧ is_Some (bufs w2 !! f_fileno f)).
  { revert H2. unfold sync, bind.
    destruct (f_flush f en w1) as [[[]|e] w1'] eqn:Hfl; [|done].
    pose proof Hfl as Hfl'.
    apply f_flush_fds in Hfl as (Hf & Hx & Hc).
    apply f_flush_calls in Hfl' as (_ & Hb & _). specialize (Hb eq_refl).
    unfold fileno. rewrite Hb.
    unfold _proper_fsync, os_fsync, fcntl_fcntl, os_call, sem_fd_check.
    assert (Hopen1 : is_Some (bufs w1 !! f_fileno f)).
    { destruct (bufs w1 !! f_fileno f) eqn:Hb1; [by eexists|].
      rewrite Hc in Hb by done. done. }
    repeat (case_match; simplify_eq/=); intros; simplify_eq/=;
      repeat split; try done; by eexists. }
  destruct Hs as (Hx2 & Hf2 & Hopen1 & Hopen2).
  intros H3. pose proof H3 as H3'.
  apply f_close_closes in H3' as [Hcl _].
  apply f_close_fds in H3 as (Hx3 & _ & Hf3).
  split; [congruence|]. split; [|done].
  rewrite Hf3 by done. by rewrite Hf2, Hf1.
Qed.

(** X14.  Off win32, a scoped write that returns leaves open no descriptor
    it opened: the descriptor of [mkstemp], the stream's descriptor and the
    directory descriptors of the commit are all closed again, so the open
    descriptors are those of before (in a world where the descriptors yet
    to be handed out are not open). *)
Theorem X14_no_descriptor_left_open plat path mode overwrite kw block en w w' :
  is_win32 plat = false →
  fds_fresh w →
  atomic_write plat path mode overwrite kw block en w = (Ok tt, w') →
  fds w' = fds w.
Proof.
  intros Hplat Hfresh. unfold atomic_write.
  destruct (__init__ plat path mode overwrite kw) as [self|e]; [|done].
  unfold open, _open.
  destruct (get_fileobject self (_open_kwargs self) en w) as [[f|e] w1] eqn:Hg.
  2:{ simpl. by intros [= _]. }
  apply get_fileobject_ok in Hg as (_ & _ & _ & Hfd & Hnx1 & Hcl1 & Hoth1).
  unfold with_file, try_finally.
  destruct ((run_block f block ;; sync plat self f ;; f_close f) en w1)
    as [[[]|e] w3] eqn:Hph.
  2:{ rewrite (bind_assoc4_raise _ _ _ _ _ _ _ _ Hph).
      destruct (f_close f en w3) as [[[]|?] w4]; simpl;
        destruct (try_pass _ en w4); by intros [= _]. }
  rewrite (bind_assoc4 _ _ _ _ _ _ _ Hph).
  apply stream_phase_fds in Hph as (Hnx3 & Hf3 & Hb3).
  assert (Hfds3 : fds w3 = fds w).
  { apply map_eq. intros k. rewrite Hf3, Hfd.
    destruct (decide (k = S (next_fd w))) as [->|Hk1].
    { rewrite lookup_delete_eq. symmetry. apply Hfresh. lia. }
    rewrite lookup_delete_ne by done.
    destruct (decide (k = next_fd w)) as [->|Hk0].
    { rewrite Hcl1. symmetry. apply Hfresh. lia. }
    by apply Hoth1. }
  destruct (commit plat self f en w3) as [[[]|ec] w4] eqn:Hc.
  2:{ destruct (f_close f en w4) as [[[]|?] w5]; simpl;
        destruct (try_pass _ en w5); by intros [= _]. }
  pose proof Hc as Hc'.
  apply commit_posix_fds in Hc; [|done|].
  2:{ intros k Hk. rewrite Hfds3. apply Hfresh. lia. }
  assert (Hb4 : bufs w4 !! f_fileno f = None).
  { revert Hc'. unfold commit. unfold_posix. rewrite Hplat. simpl.
    repeat (case_match; simplify_eq/=); by intros [= <-]. }
  rewrite f_close_closed by done. simpl. intros [= <-]. congruence.
Qed.

Lemma X14_no_descriptor_left_open_witness :
  let w := World ∅ ∅ 0 {[ 1%nat := FdDir "/" ]} 3 ∅ 0 [] in
  let run := atomic_write darwin "/data/f.txt" None None
               {[ "dir" := "/stage" ]} [Cwrite "new"] quiet w in
  fds_fresh w
  ∧ fst run = Ok tt
  ∧ fds (snd run) = fds w.
Proof.
  intros w run.
  assert (Hfresh : fds_fresh w).
  { intros k Hk. simpl in *. apply lookup_singleton_None. lia. }
  assert (Hrun : run = (Ok tt, snd run)) by (vm_compute; reflexivity).
  split; [exact Hfresh|]. split; [by rewrite Hrun|].
  exact (X14_no_descriptor_left_open darwin "/data/f.txt" None None
           {[ "dir" := "/stage" ]} [Cwrite "new"] quiet w (snd run)
           eq_refl Hfresh Hrun).
Defined.
